(** * Swervin Mervin: the road segment of the pseudo-3D renderer

    A shallow embedding of [swervin_mervin/segment.py] (Python 2) and the
    properties of its projection, culling, drawing and sprite bookkeeping.

    Numbers are Python's: unbounded integers and binary64 floats, mixed by
    the interpreter's coercion rules.  Dictionaries are finite maps keyed
    by strings.  Methods that mutate [self] or the window are computations
    in a state-and-exception monad in which the state written before an
    exception is raised stays written, as it does in Python. *)

From Stdlib Require Import ZArith Reals Lra Psatz Floats Lia Ascii.
From stdpp Require Import gmap strings list fin_maps.

Local Open Scope Z_scope.

(** ** Python values, exceptions and arithmetic *)

Module Py.

Inductive exn :=
| ZeroDivisionError
| OverflowError
| KeyError (key : string)
| TypeError
| ValueError.

Inductive result (A : Type) :=
| Ok (a : A)
| Raise (e : exn).
Arguments Ok {A} a.
Arguments Raise {A} e.

#[export] Instance result_ret : MRet result := @Ok.
#[export] Instance result_bind : MBind result := λ A B k r,
  match r with
  | Ok a => k a
  | Raise e => Raise e
  end.

(** A computation over a mutable object of type [S]: it returns or
    raises, and in both cases hands back the object as it left it. *)
Definition py (S A : Type) : Type := S → result A * S.

Definition ret {S A} (a : A) : py S A := λ st, (Ok a, st).
Definition bind {S A B} (m : py S A) (k : A → py S B) : py S B := λ st,
  match m st with
  | (Ok a, st') => k a st'
  | (Raise e, st') => (Raise e, st')
  end.
Definition lift {S A} (r : result A) : py S A := λ st, (r, st).
Definition read {S A} (f : S → A) : py S A := λ st, (Ok (f st), st).
Definition modify {S} (f : S → S) : py S unit := λ st, (Ok tt, f st).

(** Running a computation on a component of the object. *)
Definition zoom {S T A} (get : S → T) (set : T → S → S) (m : py T A) : py S A :=
  λ st, let (r, t) := m (get st) in (r, set t st).

(** [for x in xs: body(x)] *)
Fixpoint for_each {S A} (xs : list A) (body : A → py S unit) : py S unit :=
  match xs with
  | [] => ret tt
  | x :: xs' => bind (body x) (λ _, for_each xs' body)
  end.

Module Import Notations.
Declare Scope py_scope.
Delimit Scope py_scope with py.
Notation "x <- m ;; k" := (bind m (λ x, k))
  (at level 100, m at next level, right associativity) : py_scope.
Notation "m ;; k" := (bind m (λ _, k))
  (at level 100, right associativity) : py_scope.
End Notations.

(** *** Numbers *)

Inductive number :=
| PyInt (z : Z)
| PyFloat (f : float).

(** [float(n)] for an integer [n]: the nearest binary64 value, ties to
    even; [OverflowError] once that value would reach [2^1024]. *)
Definition DBL_OVERFLOW : Z := 2 ^ 1024 - 2 ^ 970.

Definition float_of_Z (z : Z) : result float :=
  if Z.abs z <? DBL_OVERFLOW
  then Ok (SF2Prim (binary_normalize prec emax z 0 false))
  else Raise OverflowError.

Definition as_float (n : number) : result float :=
  match n with
  | PyInt z => float_of_Z z
  | PyFloat f => Ok f
  end.

(** A binary operator: integer arithmetic on two integers, otherwise
    both operands are coerced to float. *)
Definition arith (zop : Z → Z → Z) (fop : float → float → float)
    (a b : number) : result number :=
  match a, b with
  | PyInt x, PyInt y => Ok (PyInt (zop x y))
  | _, _ => x ← as_float a; y ← as_float b; Ok (PyFloat (fop x y))
  end.

Definition add : number → number → result number := arith Z.add PrimFloat.add.
Definition sub : number → number → result number := arith Z.sub PrimFloat.sub.
Definition mul : number → number → result number := arith Z.mul PrimFloat.mul.

Definition eq_zero (a : number) : bool :=
  match a with
  | PyInt z => z =? 0
  | PyFloat f => (f =? 0)%float
  end.

(** [a / b] in Python 2: floor division on two integers, IEEE division
    once the operands are coerced to float, and [ZeroDivisionError] when
    the divisor is zero (an integer is coerced to [0.0] only if it is 0,
    so the test is made on the divisor as it is given). *)
Definition int_div (x y : Z) : result Z :=
  if y =? 0 then Raise ZeroDivisionError else Ok (x / y).
Definition int_mod (x y : Z) : result Z :=
  if y =? 0 then Raise ZeroDivisionError else Ok (x mod y).

Definition div (a b : number) : result number :=
  match a, b with
  | PyInt x, PyInt y => z ← int_div x y; Ok (PyInt z)
  | _, _ =>
      x ← as_float a; y ← as_float b;
      if eq_zero b then Raise ZeroDivisionError else Ok (PyFloat (x / y))
  end.

(** Exact comparison of an integer with a float, as the interpreter does
    it ([None]: unordered, the float is a NaN). *)
Definition compare_Z_float (z : Z) (f : float) : option comparison :=
  match Prim2SF f with
  | S754_nan => None
  | S754_infinity sg => Some (if sg then Gt else Lt)
  | S754_zero _ => Some (z ?= 0)
  | S754_finite sg m e =>
      let v := if sg then Z.neg m else Z.pos m in
      Some (if 0 <=? e then z ?= v * 2 ^ e else z * 2 ^ (- e) ?= v)
  end.

Definition le (a b : number) : bool :=
  match a, b with
  | PyInt x, PyInt y => x <=? y
  | PyFloat x, PyFloat y => (x <=? y)%float
  | PyInt x, PyFloat y =>
      match compare_Z_float x y with Some (Lt | Eq) => true | _ => false end
  | PyFloat x, PyInt y =>
      match compare_Z_float y x with Some (Gt | Eq) => true | _ => false end
  end.
Definition ge (a b : number) : bool := le b a.

(** [round(x)] with one argument: the nearest integer as a float, halves
    away from zero; infinities, NaN and zeros are returned as they are. *)
Definition round_half_away (f : float) : float :=
  match Prim2SF f with
  | S754_finite sg m e =>
      if 0 <=? e then f
      else
        let q := Z.shiftr (Z.pos m) (- e) in
        let r := Z.land (Z.pos m) (Z.ones (- e)) in
        let q' := if 2 ^ (- e - 1) <=? r then q + 1 else q in
        SF2Prim (binary_normalize prec emax (if sg then - q' else q') 0 sg)
  | _ => f
  end.

Definition round (a : number) : result number :=
  f ← as_float a; Ok (PyFloat (round_half_away f)).

Arguments add : simpl never.
Arguments sub : simpl never.
Arguments mul : simpl never.
Arguments div : simpl never.
Arguments round : simpl never.
Arguments le : simpl never.
Arguments float_of_Z : simpl never.

(** *** Dictionaries with string keys *)

Definition item {V} (d : gmap string V) (k : string) : result V :=
  match d !! k with
  | Some v => Ok v
  | None => Raise (KeyError k)
  end.

Definition get {V} (d : gmap string V) (k : string) (default : V) : V :=
  match d !! k with
  | Some v => v
  | None => default
  end.

(** *** Lists *)

(** [xs.remove(x)]: drops the first element equal to [x], and raises
    [ValueError] when there is none. *)
Fixpoint list_remove {A} `{EqDecision A} (x : A) (xs : list A) : result (list A) :=
  match xs with
  | [] => Raise ValueError
  | y :: ys => if decide (y = x) then Ok ys
               else ys' ← list_remove x ys; Ok (y :: ys')
  end.

(** [range(n)] *)
Definition range (n : Z) : list Z := Z.of_nat <$> seq 0 (Z.to_nat n).

(** [try: m except Exception: pass] *)
Definition try_pass {S} (m : py S unit) : py S unit := λ st,
  match m st with
  | (Ok a, st') => (Ok a, st')
  | (Raise _, st') => (Ok tt, st')
  end.

End Py.

(** ** The segment *)

Module Segment.
Import Py Py.Notations.

Inductive rgb := RGB (r g b : Z).

(** An entry of the colour table: a palette (a dictionary of colours) or
    a single shared colour. *)
Inductive colours_entry :=
| Palette (p : gmap string rgb)
| Shade (c : rgb).

(** Modelled from the spec: the [settings] module, imported as [s], is
    not among the sources.  Its constants are the fields of this record,
    named as the code reads them; [LANES] and [RUMBLE_LENGTH] are
    integers, the others any number. *)
Record settings := Settings {
  DIMENSIONS : number * number;
  CAMERA_DEPTH : number;
  CAMERA_HEIGHT : number;
  SEGMENT_HEIGHT : number;
  ROAD_WIDTH : number;
  LANES : Z;
  RUMBLE_LENGTH : Z;
  COLOURS : gmap string colours_entry
}.

(** World objects (sprites, competitors) are known by their identity:
    their classes define no equality of their own. *)
Definition world_object := positive.

(** One boundary line: [{"world": {...}, "camera": {...}, "screen": {...}}]. *)
Record line := Line {
  world : gmap string number;
  camera : gmap string number;
  screen : gmap string number
}.

Record segment := Segment {
  index : Z;
  curve : number;
  sprites : list world_object;
  competitors : list world_object;
  clip : number;
  colour : colours_entry;
  top : line;
  bottom : line
}.

(** The two values [__project_line] is called with. *)
Inductive line_name := TopLine | BottomLine.

Definition getattr (n : line_name) (self : segment) : line :=
  match n with TopLine => top self | BottomLine => bottom self end.

Definition setattr (n : line_name) (p : line) (self : segment) : segment :=
  match n with
  | TopLine => Segment (index self) (curve self) (sprites self) (competitors self)
                 (clip self) (colour self) p (bottom self)
  | BottomLine => Segment (index self) (curve self) (sprites self) (competitors self)
                    (clip self) (colour self) (top self) p
  end.

Definition set_sprites (l : list world_object) (self : segment) : segment :=
  Segment (index self) (curve self) l (competitors self)
    (clip self) (colour self) (top self) (bottom self).

Definition set_camera (k : string) (v : number) : py line unit :=
  modify (λ p, Line (world p) (<[k := v]> (camera p)) (screen p)).
Definition set_screen (k : string) (v : number) : py line unit :=
  modify (λ p, Line (world p) (camera p) (<[k := v]> (screen p))).
Definition camera_item (k : string) : py line number :=
  λ p, (item (camera p) k, p).
Definition screen_item (k : string) : py line number :=
  λ p, (item (screen p) k, p).
Definition world_get (k : string) (default : number) : py line number :=
  read (λ p, get (world p) k default).

(** What the window has been asked to draw, oldest call first. *)
Inductive draw :=
| DrawRect (c : rgb) (rect : number * number * number * number) (width : Z)
| DrawPolygon (c : rgb) (points : list (number * number))
| DrawLine (c : rgb) (start_pos end_pos : number * number).

Definition surface := list draw.

Definition issue (d : draw) : py surface unit := modify (λ w, w ++ [d]).

(** A pixel of the window, column and row.  Which pixels a call paints is
    [pygame]'s affair and not part of the repository: the properties that
    speak of pixels take it as a parameter. *)
Definition pixel : Type := Z * Z.

Definition entry_item (e : colours_entry) (k : string) : result rgb :=
  match e with
  | Palette p => item p k
  | Shade _ => Raise TypeError
  end.

Definition as_colour (e : colours_entry) : result rgb :=
  match e with
  | Shade c => Ok c
  | Palette _ => Raise TypeError
  end.

(** Operators on operands that may themselves raise, left one first. *)
Definition radd (a b : result number) : result number := x ← a; y ← b; add x y.
Definition rsub (a b : result number) : result number := x ← a; y ← b; sub x y.
Definition rmul (a b : result number) : result number := x ← a; y ← b; mul x y.
Definition rdiv (a b : result number) : result number := x ← a; y ← b; div x y.

Section WithSettings.
Variable s : settings.

Definition initialize_line (y : number) (height : Z) : result line :=
  z ← mul (PyInt height) (SEGMENT_HEIGHT s);
  Ok (Line {[ "y" := y; "z" := z ]} ∅ ∅).

(** [Segment(palette, index, curve, start_y, end_y)] *)
Definition init (palette : string) (index : Z) (curve start_y end_y : number)
    : result segment :=
  colour ← item (COLOURS s) palette;
  top ← initialize_line end_y (index + 1);
  bottom ← initialize_line start_y index;
  Ok (Segment index curve [] [] (PyInt 0) colour top bottom).

Definition project_line (camera_x camera_z player_y : number) : py line unit :=
  (width <- lift (div (DIMENSIONS s).1 (PyInt 2));;
   height <- lift (div (DIMENSIONS s).2 (PyInt 2));;
   wx <- world_get "x" (PyInt 0);;
   cx <- lift (sub wx camera_x);;
   set_camera "x" cx;;
   wy <- world_get "y" (PyInt 0);;
   cy <- lift (rsub (Ok wy) (add (CAMERA_HEIGHT s) player_y));;
   set_camera "y" cy;;
   wz <- world_get "z" (PyInt 0);;
   cz <- lift (sub wz camera_z);;
   set_camera "z" cz;;
   cz <- camera_item "z";;
   sc <- lift (div (CAMERA_DEPTH s) cz);;
   set_screen "s" sc;;
   sc <- screen_item "s";;
   cx <- camera_item "x";;
   sx <- lift (t ← radd (Ok width) (rmul (mul sc cx) (Ok width)); round t);;
   set_screen "x" sx;;
   sc <- screen_item "s";;
   cy <- camera_item "y";;
   sy <- lift (t ← radd (Ok height) (rmul (mul sc cy) (Ok height)); round t);;
   set_screen "y" sy;;
   sc <- screen_item "s";;
   sw <- lift (t ← rmul (mul sc (ROAD_WIDTH s)) (Ok width); round t);;
   set_screen "w" sw)%py.

Definition on_line (n : line_name) (m : py line unit) : py segment unit :=
  zoom (getattr n) (setattr n) m.

Definition project (camera_x curve curve_delta position player_y : number)
    : py segment unit :=
  (off <- lift (rsub (sub camera_x curve) (Ok curve_delta));;
   on_line TopLine (project_line off position player_y);;
   off <- lift (sub camera_x curve);;
   on_line BottomLine (project_line off position player_y))%py.

Definition should_ignore (self : segment) (y_coverage : number) : result bool :=
  cz ← item (camera (top self)) "z";
  if le cz (CAMERA_DEPTH s) then Ok true
  else
    ty ← item (screen (top self)) "y";
    if le ty y_coverage then Ok true
    else
      by' ← item (screen (bottom self)) "y";
      ty' ← item (screen (top self)) "y";
      Ok (ge by' ty').

Definition render_grass (self : segment) : py surface unit :=
  let top := screen (top self) in
  let bottom := screen (bottom self) in
  (height <- lift (rsub (item top "y") (item bottom "y"));;
   y <- lift (rsub (Ok (DIMENSIONS s).2) (item top "y"));;
   c <- lift (entry_item (colour self) "grass");;
   issue (DrawRect c (PyInt 0, y, (DIMENSIONS s).1, height)
            (bool_to_Z (le height (PyInt 1)))))%py.

(** The four corners of one lane separator, for [lane] in
    [range(LANES - 1)]. *)
Definition lane_points (top bottom : gmap string number)
    (y_top y_bottom top_line_width bottom_line_width step : number) (lane : Z)
    : result (list (number * number)) :=
  lane_percent ← mul step (PyInt (lane + 1));
  lane_bottom_w ← rmul (rmul (item bottom "w") (Ok (PyInt 2))) (Ok lane_percent);
  lane_top_w ← rmul (rmul (item top "w") (Ok (PyInt 2))) (Ok lane_percent);
  bottom_left ← radd (rsub (item bottom "x") (item bottom "w")) (Ok lane_bottom_w);
  bottom_right ← add bottom_left bottom_line_width;
  top_left ← radd (rsub (item top "x") (item top "w")) (Ok lane_top_w);
  top_right ← add top_left top_line_width;
  Ok [(bottom_left, y_bottom); (bottom_right, y_bottom);
      (top_right, y_top); (top_left, y_top)].

Definition render_lanes (self : segment) (y_top y_bottom : number) : py surface unit :=
  let top := screen (top self) in
  let bottom := screen (bottom self) in
  (top_line_width <- lift (rdiv (item top "w") (Ok (PyInt (LANES s * 8))));;
   bottom_line_width <- lift (rdiv (item bottom "w") (Ok (PyInt (LANES s * 8))));;
   step <- lift (f ← float_of_Z (LANES s); div (PyInt 1) (PyFloat f));;
   for_each (range (LANES s - 1)) (λ lane,
     points <- lift (lane_points top bottom y_top y_bottom
                       top_line_width bottom_line_width step lane);;
     c <- lift (entry_item (colour self) "line");;
     issue (DrawPolygon c points)))%py.

Definition render_road (self : segment) : py surface unit :=
  let top := screen (top self) in
  let bottom := screen (bottom self) in
  (y_top <- lift (rsub (Ok (DIMENSIONS s).2) (item top "y"));;
   y_bottom <- lift (rsub (Ok (DIMENSIONS s).2) (item bottom "y"));;
   (* Road. *)
   points <- lift (
     a ← rsub (item bottom "x") (item bottom "w");
     b ← radd (item bottom "x") (item bottom "w");
     c ← radd (item top "x") (item top "w");
     d ← rsub (item top "x") (item top "w");
     Ok [(a, y_bottom); (b, y_bottom); (c, y_top); (d, y_top)]);;
   c <- lift (entry_item (colour self) "road");;
   issue (DrawPolygon c points);;
   top_footpath_width <-
     lift (rdiv (item top "w") (div (PyInt (LANES s)) (PyFloat 0x1.6666666666666p+1)));;
   bottom_footpath_width <-
     lift (rdiv (item bottom "w") (div (PyInt (LANES s)) (PyFloat 0x1.6666666666666p+1)));;
   (* Left footpath strip. *)
   points <- lift (
     a ← rsub (rsub (item bottom "x") (item bottom "w")) (Ok bottom_footpath_width);
     b ← rsub (item bottom "x") (item bottom "w");
     c ← rsub (item top "x") (item top "w");
     d ← rsub (rsub (item top "x") (item top "w")) (Ok top_footpath_width);
     Ok [(a, y_bottom); (b, y_bottom); (c, y_top); (d, y_top)]);;
   c <- lift (entry_item (colour self) "footpath");;
   issue (DrawPolygon c points);;
   (* Left gutter. *)
   g <- lift (item (COLOURS s) "gutter");;
   a <- lift (rsub (item bottom "x") (item bottom "w"));;
   b <- lift (rsub (item top "x") (item top "w"));;
   c <- lift (as_colour g);;
   issue (DrawLine c (a, y_bottom) (b, y_top));;
   (* Right footpath strip. *)
   points <- lift (
     a ← radd (radd (item bottom "x") (item bottom "w")) (Ok bottom_footpath_width);
     b ← radd (item bottom "x") (item bottom "w");
     c ← radd (item top "x") (item top "w");
     d ← radd (radd (item top "x") (item top "w")) (Ok top_footpath_width);
     Ok [(a, y_bottom); (b, y_bottom); (c, y_top); (d, y_top)]);;
   c <- lift (entry_item (colour self) "footpath");;
   issue (DrawPolygon c points);;
   (* Right gutter. *)
   g <- lift (item (COLOURS s) "gutter");;
   a <- lift (radd (item bottom "x") (item bottom "w"));;
   b <- lift (radd (item top "x") (item top "w"));;
   c <- lift (as_colour g);;
   issue (DrawLine c (a, y_bottom) (b, y_top));;
   stripe <- lift (q ← int_div (index self) (RUMBLE_LENGTH s); int_mod q 2);;
   if stripe =? 0
   then render_lanes self y_top y_bottom (* Road lanes. *)
   else ret tt)%py.

(** [obj.render(window, anchor, clip)] belongs to the world objects, whose
    code this file does not interpret. *)
Variable render : world_object → gmap string number → number → py surface unit.

Definition render_world_objects (self : segment) : py surface unit :=
  for_each (sprites self ++ competitors self)
    (λ obj, render obj (screen (bottom self)) (clip self)).

Definition remove_sprite (sprite : world_object) : py segment unit :=
  try_pass (λ self,
    match list_remove sprite (sprites self) with
    | Ok l => (Ok tt, set_sprites l self)
    | Raise e => (Raise e, self)
    end).

End WithSettings.
End Segment.

(** ** The projection as the specification writes it *)

Module Spec.
Import Py Segment.

Record projection := Projection {
  camera_x : number;
  camera_y : number;
  camera_z : number;
  screen_s : number;
  screen_x : number;
  screen_y : number;
  screen_w : number
}.

(** The seven formulas of a line's projection, read off its world
    coordinates [w]; [None]-free: a formula that cannot be evaluated
    raises. *)
Definition projected (s : settings) (w : gmap string number)
    (offset position player_y : number) : result projection :=
  half_width ← div (DIMENSIONS s).1 (PyInt 2);
  half_height ← div (DIMENSIONS s).2 (PyInt 2);
  cx ← sub (get w "x" (PyInt 0)) offset;
  cy ← rsub (Ok (get w "y" (PyInt 0))) (add (CAMERA_HEIGHT s) player_y);
  cz ← sub (get w "z" (PyInt 0)) position;
  sc ← div (CAMERA_DEPTH s) cz;
  sx ← (t ← radd (Ok half_width) (rmul (mul sc cx) (Ok half_width)); round t);
  sy ← (t ← radd (Ok half_height) (rmul (mul sc cy) (Ok half_height)); round t);
  sw ← (t ← rmul (mul sc (ROAD_WIDTH s)) (Ok half_width); round t);
  Ok (Projection cx cy cz sc sx sy sw).

(** A line whose camera and screen records hold a projection; what the
    records held under other keys stays. *)
Definition store (v : projection) (p : line) : line :=
  Line (world p)
    (<["z" := camera_z v]> (<["y" := camera_y v]> (<["x" := camera_x v]> (camera p))))
    (<["w" := screen_w v]> (<["y" := screen_y v]> (<["x" := screen_x v]>
       (<["s" := screen_s v]> (screen p))))).

(** A lane separator: a quadrilateral in the palette's line colour. *)
Definition lane_separator (self : segment) (d : draw) : Prop :=
  ∃ c a b c' d', entry_item (colour self) "line" = Ok c ∧
                 d = DrawPolygon c [a; b; c'; d'].

(** What [render_road] draws before the lane separators: the road, the
    left footpath and gutter, the right footpath and gutter. *)
Definition road_base (s : settings) (self : segment) (ds : list draw) : Prop :=
  ∃ road footpath gutter p1 p2 a1 b1 p3 a2 b2,
    entry_item (colour self) "road" = Ok road ∧
    entry_item (colour self) "footpath" = Ok footpath ∧
    (COLOURS s) !! "gutter" = Some (Shade gutter) ∧
    ds = [DrawPolygon road p1; DrawPolygon footpath p2; DrawLine gutter a1 b1;
          DrawPolygon footpath p3; DrawLine gutter a2 b2].

(** What [render_road] needs to run to its end: both lines projected (their
    screen coordinates are the floats [round] returns), the palette and the
    gutter colour in place, and settings whose derived constants (the
    screen height as a float, the footpath divisor [LANES / 2.8], the lane
    divisor [LANES * 8], the step [1 / float(LANES)]) are defined and not
    zero. *)
Definition on_screen (p : line) : Prop :=
  ∃ x y w : float,
    screen p !! "x" = Some (PyFloat x) ∧ screen p !! "y" = Some (PyFloat y) ∧
    screen p !! "w" = Some (PyFloat w).

Definition road_ready (s : settings) (self : segment) : Prop :=
  on_screen (top self) ∧ on_screen (bottom self) ∧
  (∃ p road footpath line,
     colour self = Palette p ∧ p !! "road" = Some road ∧
     p !! "footpath" = Some footpath ∧ p !! "line" = Some line) ∧
  (∃ gutter, COLOURS s !! "gutter" = Some (Shade gutter)) ∧
  (∃ h, as_float (DIMENSIONS s).2 = Ok h) ∧
  1 ≤ LANES s ∧ LANES s * 8 < DBL_OVERFLOW ∧
  (∃ q, div (PyInt (LANES s)) (PyFloat 0x1.6666666666666p+1) = Ok (PyFloat q) ∧
        (q =? 0)%float = false) ∧
  (∃ step, float_of_Z (LANES s) ≫= (λ f, div (PyInt 1) (PyFloat f)) = Ok (PyFloat step)) ∧
  RUMBLE_LENGTH s ≠ 0.

End Spec.

(** ** A small track to run the code on *)

Module Demo.
Import Py Segment.

Definition light : gmap string rgb :=
  {[ "road" := RGB 107 107 107; "grass" := RGB 16 170 16;
     "footpath" := RGB 85 85 85; "line" := RGB 204 204 204 ]}.

(** The constants of the specification's scenarios: an 800 x 600 window,
    camera depth 0.84 (its nearest binary64 value), four lanes striped
    every three segments. *)
Definition conf : settings :=
  Settings (PyInt 800, PyInt 600) (PyFloat 0x1.ae147ae147ae1p-1) (PyInt 1000)
    (PyInt 200) (PyInt 2000) 4 3
    {[ "light" := Palette light; "gutter" := Shade (RGB 255 0 0) ]}.

(** [Segment("light", i, 0, 0, 0)], before any projection. *)
Definition flat (i : Z) : segment :=
  Segment i (PyInt 0) [] [] (PyInt 0) (Palette light)
    (Line {[ "y" := PyInt 0; "z" := PyInt ((i + 1) * 200) ]} ∅ ∅)
    (Line {[ "y" := PyInt 0; "z" := PyInt (i * 200) ]} ∅ ∅).


End Demo.

(** ** The sprite ([swervin_mervin/sprite.py]) *)

Module Sprite.
Import Py.

(** Modelled from the spec: the registry [s.SPRITES] maps a sprite name to
    its asset descriptor, a dictionary.  The code reads the value under
    ["path"], a string, and tests the keys ["hooker"] and ["bonus"] for
    presence only; the values are taken to be strings. *)
Record sprite_object := SpriteObject {
  offset : number;
  offset_y : number;
  sprite : gmap string string;
  quantifier : Z;
  hit : bool
}.

(** [name.replace(".", "_dead.")]: every dot, left to right. *)
Fixpoint replace_dots (name : string) : string :=
  match name with
  | EmptyString => EmptyString
  | String c rest =>
      if Ascii.eqb c "."%char then ("_dead." ++ replace_dots rest)%string
      else String c (replace_dots rest)
  end.

Definition is_hooker (self : sprite_object) : bool :=
  bool_decide (is_Some (sprite self !! "hooker")).

Definition is_bonus (self : sprite_object) : bool :=
  bool_decide (is_Some (sprite self !! "bonus")).

Section WithRegistry.
Variable SPRITES : gmap string (gmap string string).

(** [Sprite(name, x, y)] *)
Definition init (name : string) (x y : number) : result sprite_object :=
  d ← item SPRITES name;
  Ok (SpriteObject x y d 3 false).

(** [os.path.join] and [pygame.image.load] belong to the libraries; [path]
    hands the one's result to the other. *)
Variable image : Type.
Variable path_join : string → string → string.
Variable image_load : string → result image.

Definition path (self : sprite_object) : result image :=
  sprite_name ← item (sprite self) "path";
  let sprite_name :=
    if is_hooker self && hit self then replace_dots sprite_name else sprite_name in
  image_load (path_join "lib" sprite_name).

End WithRegistry.
End Sprite.

(** ** Vocabulary of the further properties *)

Module Scene.
Import Py Segment Spec.

(** The keys a projection writes. *)
Definition camera_keys : list string := ["x"; "y"; "z"].
Definition screen_keys : list string := ["s"; "x"; "y"; "w"].

(** The sprites after [remove_sprite]. *)
Definition without (sprite : world_object) (l : list world_object)
    : list world_object :=
  match list_remove sprite l with
  | Ok l' => l'
  | Raise _ => l
  end.

(** A computation that only appends to the window, at most [n] calls. *)
Definition appends {A} (n : nat) (m : py surface A) : Prop :=
  ∀ w, ∃ ds, (m w).2 = w ++ ds ∧ (length ds ≤ n)%nat.

(** What the part of [render_road] before the lane test needs to run. *)
Definition base_ready (s : settings) (self : segment) : Prop :=
  on_screen (top self) ∧ on_screen (bottom self) ∧
  (∃ p road footpath,
     colour self = Palette p ∧ p !! "road" = Some road ∧
     p !! "footpath" = Some footpath) ∧
  (∃ gutter, COLOURS s !! "gutter" = Some (Shade gutter)) ∧
  (∃ h, as_float (DIMENSIONS s).2 = Ok h) ∧
  (∃ q, div (PyInt (LANES s)) (PyFloat 0x1.6666666666666p+1) = Ok (PyFloat q) ∧
        (q =? 0)%float = false).

(** A world object whose [render] draws one line from the anchor's [x]
    to the clip value, in a colour that tells the object. *)
Definition stamp_of (obj : world_object) (anchor : gmap string number) (clip : number)
    : list draw :=
  [DrawLine (RGB 0 0 (Z.pos obj))
     (get anchor "x" (PyInt 0), clip) (get anchor "x" (PyInt 0), clip)].

Definition stamp (obj : world_object) (anchor : gmap string number) (clip : number)
    : py surface unit :=
  modify (λ w, w ++ stamp_of obj anchor clip).

(** A rasteriser to try the properties on.  A rectangle holds the pixels
    whose offsets from its corner are below its width and height.  A call
    with stroke width [k] paints all of them when [k] is 0 or when the
    rectangle is at most [k] high or wide, and otherwise those less than
    [k] away from one of its edges. *)
Definition within (lo len : number) (v : Z) : bool :=
  match sub (PyInt v) lo with
  | Ok d => le (PyInt 0) d && negb (le len d)
  | Raise _ => false
  end.

Definition in_rect (r : number * number * number * number) (p : pixel) : bool :=
  let '(x, y, w, h) := r in within x w p.1 && within y h p.2.

Definition near_edge (lo len : number) (k v : Z) : bool :=
  match sub (PyInt v) lo with
  | Ok d =>
      negb (le (PyInt k) d) ||
      match sub len d with Ok e => le e (PyInt k) | Raise _ => false end
  | Raise _ => false
  end.

Definition painted (d : draw) (p : pixel) : bool :=
  match d with
  | DrawRect _ (x, y, w, h) k =>
      in_rect (x, y, w, h) p &&
      ((k =? 0) || le h (PyInt k) || le w (PyInt k)
       || near_edge x w k p.1 || near_edge y h k p.2)
  | _ => false
  end.

(** The number of dots of a file name. *)
Fixpoint dots (name : string) : nat :=
  match name with
  | EmptyString => 0
  | String c rest => (if Ascii.eqb c "."%char then 1 else 0) + dots rest
  end.

(** The demo settings with another number of lanes and rumble length. *)
Definition conf_with (lanes rumble : Z) : settings :=
  Settings (DIMENSIONS Demo.conf) (CAMERA_DEPTH Demo.conf) (CAMERA_HEIGHT Demo.conf)
    (SEGMENT_HEIGHT Demo.conf) (ROAD_WIDTH Demo.conf) lanes rumble (COLOURS Demo.conf).

(** A demo segment projected from one unit behind the start of the track. *)
Definition seen (i : Z) : segment :=
  (project Demo.conf (PyInt 0) (PyInt 0) (PyInt 0) (PyInt (-1)) (PyInt 0) (Demo.flat i)).2.

End Scene.

(** ** Binary64 rounding, for the perspective scale

    The scale of a line is the IEEE quotient [CAMERA_DEPTH / z].  These
    are the reals a positive float stands for and the rounding of a real
    to a mantissa and an exponent, ties to even, as [SFdiv] of the
    Standard Library computes it. *)

Module Binary64.
Local Open Scope R_scope.

(** The power of two of an integer exponent. *)
Definition bpow (e : Z) : R := powerRZ 2 e.

(** Position of a real in the unit interval above an integer, as the
    round and sticky bits of a shift record encode it. *)
Definition inbetween (y : R) (mrs : shr_record) : Prop :=
  (0 <= shr_m mrs)%Z ∧
  match shr_r mrs, shr_s mrs with
  | false, false => y = IZR (shr_m mrs)
  | false, true => IZR (shr_m mrs) < y < IZR (shr_m mrs) + / 2
  | true, false => y = IZR (shr_m mrs) + / 2
  | true, true => IZR (shr_m mrs) + / 2 < y < IZR (shr_m mrs) + 1
  end.

(** Rounding to the nearest integer, ties to even. *)
Definition rne (y : R) (M : Z) : Prop :=
  IZR M - / 2 <= y <= IZR M + / 2 ∧
  (y = IZR M - / 2 ∨ y = IZR M + / 2 → Z.even M = true).

(** [x] rounds to the mantissa [M] at the exponent [E]. *)
Definition rounds_to (x : R) (M E : Z) : Prop :=
  (-1074 <= E)%Z ∧ rne (x * bpow (- E)) M ∧
  x < bpow (E + 53) ∧ (E = (-1074)%Z ∨ bpow (E + 52) <= x).

(** The float a rounded mantissa [M] at the exponent [E] is packed into:
    a mantissa that reached [2^53] moves up one exponent, an exponent
    above the largest one gives an infinity. *)
Definition pack (sx : bool) (M E : Z) : spec_float :=
  match (if M =? 2 ^ 53 then 2 ^ 52 else M)%Z with
  | Z0 => S754_zero sx
  | Zpos m =>
      if ((if M =? 2 ^ 53 then E + 1 else E) <=? 971)%Z
      then S754_finite sx m (if M =? 2 ^ 53 then E + 1 else E)%Z
      else S754_infinity sx
  | Zneg _ => S754_nan
  end.

(** The float of a mantissa and an exponent already in range. *)
Definition mk_float (sx : bool) (m e : Z) : spec_float :=
  match m with
  | Z0 => S754_zero sx
  | Zpos p => if (e <=? 971)%Z then S754_finite sx p e else S754_infinity sx
  | Zneg _ => S754_nan
  end.

(** The value of a finite float with a positive sign. *)
Definition F2R (m : positive) (e : Z) : R := IZR (Z.pos m) * bpow e.

End Binary64.

(** ** Properties *)

Import Py Py.Notations Segment Spec.

Ltac unfold_py :=
  unfold set_camera, set_screen, camera_item, screen_item, world_get,
    on_line, issue in *;
  unfold bind, lift, read, modify, ret, zoom, try_pass in *.

(** Case analysis on the next operation that may raise. *)
Ltac next_op :=
  match goal with
  | H : context [mbind _ ?r] |- _ =>
      let E := fresh "E" in destruct r eqn:E; simpl in H; try discriminate H
  end.

Lemma item_insert_eq {V} (d : gmap string V) k v : item (<[k := v]> d) k = Ok v.
Proof. unfold item. by rewrite lookup_insert_eq. Qed.

Lemma item_insert_ne {V} (d : gmap string V) k k' v :
  k ≠ k' → item (<[k := v]> d) k' = item d k'.
Proof. intros. unfold item. by rewrite lookup_insert_ne. Qed.

Ltac use_eqs :=
  repeat first
    [ progress simpl
    | rewrite item_insert_eq
    | rewrite item_insert_ne by done
    | match goal with
      | H : ?x = Ok _ |- context [?x] => rewrite H
      | H : ?x = Raise _ |- context [?x] => rewrite H
      end ].

Lemma project_line_ok s p off pos player_y v :
  projected s (world p) off pos player_y = Ok v →
  project_line s off pos player_y p = (Ok tt, store v p).
Proof.
  unfold projected, radd, rsub, rmul. intros H.
  repeat next_op. injection H as <-.
  unfold project_line, radd, rsub, rmul. unfold_py.
  use_eqs. reflexivity.
Qed.

(** One step through a computation met as a hypothesis: simplify a read
    of a key just written, or split on the next operation. *)
Ltac run_in H :=
  repeat first
    [ rewrite item_insert_eq in H
    | rewrite item_insert_ne in H by done
    | progress simpl in H
    | match type of H with
      | context [match ?r with Ok _ => _ | Raise _ => _ end] => destruct r eqn:?
      end ].

Ltac same_map :=
  apply map_eq; intros ?; rewrite ?lookup_insert; repeat case_decide; congruence.

Lemma outcome_line_eq {A} (r : result A) w c c' sc sc' :
  c = c' → sc = sc' → (r, Line w c sc) = (r, Line w c' sc').
Proof. by intros -> ->. Qed.

Lemma project_line_again s off pos player_y p r p' :
  project_line s off pos player_y p = (r, p') →
  project_line s off pos player_y p' = (r, p').
Proof.
  intros H. unfold project_line, radd, rsub, rmul in *. unfold_py.
  run_in H; injection H as <- <-; use_eqs;
    solve [ by destruct p | apply outcome_line_eq; same_map ].
Qed.

Lemma project_line_inv s off pos player_y p p' :
  project_line s off pos player_y p = (Ok tt, p') →
  ∃ v, projected s (world p) off pos player_y = Ok v ∧ p' = store v p.
Proof.
  intros H. unfold project_line, projected, radd, rsub, rmul in *. unfold_py.
  run_in H; try discriminate H. injection H as <-.
  eexists. use_eqs. split; reflexivity.
Qed.

Lemma project_line_world s off pos player_y p :
  world (project_line s off pos player_y p).2 = world p.
Proof.
  destruct (project_line _ _ _ _ p) as [r p'] eqn:H. simpl.
  unfold project_line, radd, rsub, rmul in *. unfold_py.
  run_in H; by injection H as <- <-.
Qed.

(** [project] is the top line with the leaning offset, then the bottom
    line with the plain one; an exception ends it where it is raised. *)
Lemma project_unfold s cx c cd pos player_y self :
  project s cx c cd pos player_y self =
    match rsub (sub cx c) (Ok cd) with
    | Raise e => (Raise e, self)
    | Ok off_top =>
        match project_line s off_top pos player_y (top self) with
        | (Raise e, p) => (Raise e, setattr TopLine p self)
        | (Ok _, p) =>
            match sub cx c with
            | Raise e => (Raise e, setattr TopLine p self)
            | Ok off_bottom =>
                let (r, q) := project_line s off_bottom pos player_y (bottom self) in
                (r, setattr BottomLine q (setattr TopLine p self))
            end
        end
    end.
Proof.
  unfold project. unfold_py.
  destruct (rsub _ _); [|done].
  simpl. destruct (project_line _ _ _ _ (top self)) as [[[]|] p]; [|done].
  destruct (sub cx c); [|done]. done.
Qed.

Lemma setattr_both p q self :
  setattr BottomLine q (setattr TopLine p self) =
    Segment (index self) (curve self) (sprites self) (competitors self)
      (clip self) (colour self) p q.
Proof. reflexivity. Qed.

Lemma demo_init i :
  init Demo.conf "light" i (PyInt 0) (PyInt 0) (PyInt 0) = Ok (Demo.flat i).
Proof. reflexivity. Qed.

(** C1.  [project] computes, for each of the two lines, the seven formulas
    of the projection from the line's world coordinates: the top line with
    the horizontal offset [camera_x - curve - curve_delta], the bottom line
    with [camera_x - curve].  Whenever the formulas have values (the depth
    [camera.z] is not zero and no integer is too large for a float),
    [project] returns normally, both lines hold exactly these values in
    their camera and screen records, and nothing else of the segment
    changes. *)
Theorem project_computes s self cx c cd pos player_y off_top off_bottom vt vb :
  rsub (sub cx c) (Ok cd) = Ok off_top →
  sub cx c = Ok off_bottom →
  projected s (world (top self)) off_top pos player_y = Ok vt →
  projected s (world (bottom self)) off_bottom pos player_y = Ok vb →
  project s cx c cd pos player_y self =
    (Ok tt,
     Segment (index self) (curve self) (sprites self) (competitors self)
       (clip self) (colour self) (store vt (top self)) (store vb (bottom self))).
Proof.
  intros Ht Hb Hvt Hvb. rewrite project_unfold, Ht.
  rewrite (project_line_ok _ _ _ _ _ _ Hvt), Hb.
  by rewrite (project_line_ok _ _ _ _ _ _ Hvb).
Qed.

Lemma project_computes_witness :
  project Demo.conf (PyInt 0) (PyInt 0) (PyInt 0) (PyInt (-1)) (PyInt 0) (Demo.flat 0) =
    (Ok tt,
     Segment 0 (PyInt 0) [] [] (PyInt 0) (Palette Demo.light)
       (store (Projection (PyInt 0) (PyInt (-1000)) (PyInt 201)
                 (PyFloat 0x1.11e1bd0ed3381p-8) (PyFloat 400) (PyFloat (-954))
                 (PyFloat 3343))
          (top (Demo.flat 0)))
       (store (Projection (PyInt 0) (PyInt (-1000)) (PyInt 1)
                 (PyFloat 0x1.ae147ae147ae1p-1) (PyFloat 400) (PyFloat (-251700))
                 (PyFloat 672000))
          (bottom (Demo.flat 0)))).
Proof.
  apply (project_computes Demo.conf (Demo.flat 0) (PyInt 0) (PyInt 0) (PyInt 0)
           (PyInt (-1)) (PyInt 0) (PyInt 0) (PyInt 0)); reflexivity.
Defined.

(** C2.  On a projected segment [should_ignore] returns, without raising,
    and its answer is true exactly when one of the three tests holds:
    [top.camera.z <= CAMERA_DEPTH], [top.screen.y <= y_coverage] or
    [bottom.screen.y >= top.screen.y]; it is false when none does. *)
Theorem should_ignore_cases s self y_coverage cz ty by' :
  camera (top self) !! "z" = Some cz →
  screen (top self) !! "y" = Some ty →
  screen (bottom self) !! "y" = Some by' →
  ∃ b, should_ignore s self y_coverage = Ok b ∧
       (le cz (CAMERA_DEPTH s) = true → b = true) ∧
       (le ty y_coverage = true → b = true) ∧
       (ge by' ty = true → b = true) ∧
       (le cz (CAMERA_DEPTH s) = false → le ty y_coverage = false →
        ge by' ty = false → b = false).
Proof.
  intros Hz Hty Hby. unfold should_ignore, item. rewrite Hz, Hty, Hby. simpl.
  destruct (le cz _), (le ty _), (ge by' ty); eexists; (split; [reflexivity|]);
    repeat split; congruence.
Qed.

Lemma should_ignore_cases_witness :
  ∃ b, should_ignore Demo.conf
         (project Demo.conf (PyInt 0) (PyInt 0) (PyInt 0) (PyInt (-1)) (PyInt 0)
            (Demo.flat 30)).2 (PyFloat 258) = Ok b ∧
       (le (PyInt 6201) (CAMERA_DEPTH Demo.conf) = true → b = true) ∧
       (le (PyFloat 259) (PyFloat 258) = true → b = true) ∧
       (ge (PyFloat 258) (PyFloat 259) = true → b = true) ∧
       (le (PyInt 6201) (CAMERA_DEPTH Demo.conf) = false →
        le (PyFloat 259) (PyFloat 258) = false →
        ge (PyFloat 258) (PyFloat 259) = false → b = false).
Proof.
  apply (should_ignore_cases Demo.conf _ (PyFloat 258) (PyInt 6201) (PyFloat 259)
           (PyFloat 258)); reflexivity.
Defined.

(** C4.  [render_grass] issues exactly one rectangle: its top edge at
    [SCREEN_HEIGHT - top.screen.y], the full width of the screen,
    [top.screen.y - bottom.screen.y] high, in the palette's grass colour,
    and the band is painted solid in both cases.  The last argument of the
    call is [int(height <= 1)]: stroke width 0, a fill, for a band more
    than one pixel high, and a stroke one pixel thick for a band at most
    one pixel high.  What a call paints is the drawing library's: for any
    rasteriser that paints every pixel of a rectangle called with width 0,
    and every pixel of a rectangle at most one pixel high called with
    width 1, every pixel of the band is painted. *)
Theorem render_grass_rect s self window ty by' height y c
    (inside : number * number * number * number → pixel → Prop)
    (paints : draw → pixel → Prop) :
  (∀ c r p, inside r p → paints (DrawRect c r 0) p) →
  (∀ c x y w h p, le h (PyInt 1) = true → inside (x, y, w, h) p →
                  paints (DrawRect c (x, y, w, h) 1) p) →
  screen (top self) !! "y" = Some ty →
  screen (bottom self) !! "y" = Some by' →
  sub ty by' = Ok height →
  sub (DIMENSIONS s).2 ty = Ok y →
  entry_item (colour self) "grass" = Ok c →
  ∃ d, render_grass s self window = (Ok tt, window ++ [d]) ∧
       d = DrawRect c (PyInt 0, y, (DIMENSIONS s).1, height)
             (if le height (PyInt 1) then 1 else 0) ∧
       ∀ p, inside (PyInt 0, y, (DIMENSIONS s).1, height) p → paints d p.
Proof.
  intros Hfill Hthin Hty Hby Hh Hy Hc. unfold render_grass, rsub, item. unfold_py.
  rewrite Hty, Hby. simpl. rewrite Hh, Hy. simpl. rewrite Hc.
  eexists. split; [reflexivity|]. split; [reflexivity|].
  intros p Hp. destruct (le height (PyInt 1)) eqn:Hle.
  - by apply Hthin.
  - by apply Hfill.
Qed.

Lemma render_grass_rect_witness :
  ∃ d, render_grass Demo.conf
         (project Demo.conf (PyInt 0) (PyInt 0) (PyInt 0) (PyInt (-1)) (PyInt 0)
            (Demo.flat 30)).2 [] = (Ok tt, [] ++ [d]) ∧
       d = DrawRect (RGB 16 170 16) (PyInt 0, PyFloat 341, PyInt 800, PyFloat 1)
             (if le (PyFloat 1) (PyInt 1) then 1 else 0) ∧
       ∀ p, Scene.in_rect (PyInt 0, PyFloat 341, PyInt 800, PyFloat 1) p = true →
            Scene.painted d p = true.
Proof.
  apply (render_grass_rect Demo.conf _ [] (PyFloat 259) (PyFloat 258) _ _ _
           (λ r p, Scene.in_rect r p = true) (λ d p, Scene.painted d p = true)).
  - intros c [[[x y] w] h] p Hp. unfold Scene.painted. by rewrite Hp.
  - intros c x y w h p Hle Hp. unfold Scene.painted. by rewrite Hp, Hle.
  - reflexivity.
  - reflexivity.
  - reflexivity.
  - reflexivity.
  - reflexivity.
Defined.

(** *** The road and its lane separators *)

Lemma for_each_draws {A} (body : A → py surface unit) (P : A → draw → Prop) xs :
  (∀ x w w', body x w = (Ok tt, w') → ∃ d, w' = w ++ [d] ∧ P x d) →
  ∀ w w', for_each xs body w = (Ok tt, w') → ∃ ds, w' = w ++ ds ∧ Forall2 P xs ds.
Proof.
  intros Hbody. induction xs as [|x xs IH]; simpl; intros w w' H.
  - injection H as <-. exists []. by rewrite app_nil_r.
  - unfold bind in H. destruct (body x w) as [[[]|e] w1] eqn:Hx; [|done].
    destruct (Hbody _ _ _ Hx) as (d & -> & Hd).
    destruct (IH _ _ H) as (ds & -> & Hds).
    exists (d :: ds). split; [by rewrite <- app_assoc | by constructor].
Qed.

Lemma length_range n : Z.of_nat (length (range n)) = Z.max 0 n.
Proof. unfold range. rewrite length_fmap, length_seq. lia. Qed.

Lemma bind_lift_ok {S A B} (r : result A) (k : A → py S B) st b st' :
  bind (lift r) k st = (Ok b, st') → ∃ a, r = Ok a ∧ k a st = (Ok b, st').
Proof. unfold bind, lift. destruct r; [eauto | done]. Qed.

Lemma render_lanes_draws s self y_top y_bottom w w' :
  render_lanes s self y_top y_bottom w = (Ok tt, w') →
  ∃ lanes, w' = w ++ lanes ∧ Forall (lane_separator self) lanes ∧
           Z.of_nat (length lanes) = Z.max 0 (LANES s - 1).
Proof.
  intros H. unfold render_lanes in H.
  apply bind_lift_ok in H as (tw & _ & H).
  apply bind_lift_ok in H as (bw & _ & H).
  apply bind_lift_ok in H as (step & _ & H).
  apply for_each_draws with (P := λ _ d, lane_separator self d) in H.
  - destruct H as (ds & -> & Hds). exists ds. split; [done|]. split.
    + clear -Hds. induction Hds; by constructor.
    + apply Forall2_length in Hds. rewrite <- Hds. apply length_range.
  - clear. intros lane w w' H.
    apply bind_lift_ok in H as (points & Hp & H).
    apply bind_lift_ok in H as (c & Hc & H).
    unfold lane_points in Hp. repeat next_op. injection Hp as <-.
    injection H as <-. eexists. split; [reflexivity|]. red. eauto 10.
Qed.

Lemma bind_issue {B} d (k : unit → py surface B) w :
  bind (issue d) k w = k tt (w ++ [d]).
Proof. reflexivity. Qed.

Lemma item_ok {V} (d : gmap string V) k v : item d k = Ok v → d !! k = Some v.
Proof. unfold item. destruct (d !! k); naive_solver. Qed.

Lemma as_colour_ok e c : as_colour e = Ok c → e = Shade c.
Proof. destruct e; naive_solver. Qed.

Lemma stripe_ok i n r :
  int_div i n ≫= (λ q, int_mod q 2) = Ok r → n ≠ 0 ∧ r = (i / n) mod 2.
Proof.
  unfold int_div, int_mod. destruct (n =? 0) eqn:Hn; simpl; [done|].
  intros [= <-]. split; [lia | done].
Qed.

Ltac lift_ok H x E := apply bind_lift_ok in H as (x & E & H).

Lemma render_road_draws s self w w' :
  render_road s self w = (Ok tt, w') →
  ∃ base lanes,
    w' = w ++ base ++ lanes ∧ road_base s self base ∧
    Forall (lane_separator self) lanes ∧
    Z.of_nat (length lanes) =
      if (index self / RUMBLE_LENGTH s) mod 2 =? 0 then Z.max 0 (LANES s - 1) else 0.
Proof.
  intros H. unfold render_road in H.
  lift_ok H y_top Eyt. lift_ok H y_bottom Eyb.
  lift_ok H p1 Ep1. lift_ok H road Eroad. rewrite bind_issue in H.
  lift_ok H tfw Etfw. lift_ok H bfw Ebfw.
  lift_ok H p2 Ep2. lift_ok H footpath Efoot. rewrite bind_issue in H.
  lift_ok H g Eg. lift_ok H a1 Ea1. lift_ok H b1 Eb1. lift_ok H gutter Egut.
  rewrite bind_issue in H.
  lift_ok H p3 Ep3. lift_ok H footpath' Efoot'. rewrite bind_issue in H.
  lift_ok H g' Eg'. lift_ok H a2 Ea2. lift_ok H b2 Eb2. lift_ok H gutter' Egut'.
  rewrite bind_issue in H.
  lift_ok H stripe Es.
  apply stripe_ok in Es as [_ ->].
  apply item_ok in Eg, Eg'. apply as_colour_ok in Egut, Egut'. subst g g'.
  assert (footpath' = footpath) as -> by congruence.
  assert (gutter' = gutter) as -> by congruence.
  set (w5 := ((((_ ++ _) ++ _) ++ _) ++ _)) in H.
  assert (∃ lanes, w' = w5 ++ lanes ∧
            Forall (lane_separator self) lanes ∧
            Z.of_nat (length lanes) =
              if (index self / RUMBLE_LENGTH s) mod 2 =? 0
              then Z.max 0 (LANES s - 1) else 0) as (lanes & -> & Hl & Hn).
  { destruct (_ =? 0).
    - by apply render_lanes_draws in H.
    - injection H as <-. exists []. by rewrite app_nil_r. }
  eexists [_; _; _; _; _], lanes. split; [subst w5; by rewrite <- !app_assoc|].
  split; [|done]. red. eauto 15.
Qed.

(** *** [render_road] runs to its end on a projected segment *)

Lemma for_each_returns {S A} (body : A → py S unit) xs :
  (∀ x, x ∈ xs → ∀ st, ∃ st', body x st = (Ok tt, st')) →
  ∀ st, ∃ st', for_each xs body st = (Ok tt, st').
Proof.
  induction xs as [|x xs IH]; intros Hbody st; simpl.
  - by eexists.
  - unfold bind. destruct (Hbody x (list_elem_of_here _ _) st) as [st1 ->].
    apply IH. intros y Hy. apply Hbody. by constructor.
Qed.

Lemma elem_of_range x n : x ∈ range n → 0 ≤ x < n.
Proof.
  unfold range. intros (k & -> & Hk)%list_elem_of_fmap.
  apply elem_of_seq in Hk. lia.
Qed.

Lemma float_of_Z_small z : Z.abs z < DBL_OVERFLOW → ∃ f, float_of_Z z = Ok f.
Proof.
  intros Hz. unfold float_of_Z.
  destruct (Z.ltb_spec (Z.abs z) DBL_OVERFLOW); [by eexists | lia].
Qed.

Lemma arith_float_float zop fop a b :
  arith zop fop (PyFloat a) (PyFloat b) = Ok (PyFloat (fop a b)).
Proof. reflexivity. Qed.

Lemma arith_float_r zop fop a b h :
  as_float a = Ok h → arith zop fop a (PyFloat b) = Ok (PyFloat (fop h b)).
Proof. intros H. destruct a; simpl in *; [by rewrite H | by injection H as ->]. Qed.

Lemma arith_float_l zop fop a b h :
  as_float b = Ok h → arith zop fop (PyFloat a) b = Ok (PyFloat (fop a h)).
Proof. intros H. destruct b; simpl in *; [by rewrite H | by injection H as ->]. Qed.

Lemma div_float_l a b h :
  as_float b = Ok h → eq_zero b = false → div (PyFloat a) b = Ok (PyFloat (a / h)).
Proof.
  intros H Hz. unfold div.
  destruct b; simpl in *; [by rewrite H, Hz | injection H as ->; by rewrite Hz].
Qed.

Lemma lane_points_floats (t b : gmap string number) tx tw bx bw yt yb tlw blw step lane l :
  t !! "x" = Some (PyFloat tx) → t !! "w" = Some (PyFloat tw) →
  b !! "x" = Some (PyFloat bx) → b !! "w" = Some (PyFloat bw) →
  float_of_Z (lane + 1) = Ok l →
  ∃ pts, lane_points t b yt yb (PyFloat tlw) (PyFloat blw) (PyFloat step) lane = Ok pts.
Proof.
  intros Htx Htw Hbx Hbw Hl.
  unfold lane_points, radd, rsub, rmul, item. rewrite Htx, Htw, Hbx, Hbw.
  unfold mul. rewrite (arith_float_l _ _ _ (PyInt (lane + 1)) l) by done.
  simpl. unfold add, sub, mul. simpl. by eexists.
Qed.

Lemma render_road_returns s self w :
  road_ready s self → ∃ w', render_road s self w = (Ok tt, w').
Proof.
  intros ((tx & ty & tw & Htx & Hty & Htw) & (bx & by' & bw & Hbx & Hby & Hbw) &
          (p & road & foot & line & Hc & Hroad & Hfoot & Hline) &
          (gutter & Hg) & (h & Hh) & HL & HL8 & (q & Hq & Hq0) & (step & Hstep) & HR).
  destruct (float_of_Z_small (LANES s * 8)) as [l8 Hl8]; [lia|].
  unfold render_road, render_lanes, rsub, radd, rdiv, rmul, entry_item.
  unfold item.
  rewrite Hc. simpl. rewrite Htx, Hty, Htw, Hbx, Hby, Hbw, Hroad, Hfoot, Hline, Hg, Hq, Hstep.
  unfold add, sub. simpl.
  rewrite !(arith_float_r _ _ _ _ _ Hh).
  rewrite !(div_float_l _ (PyFloat q) q) by done.
  rewrite !(div_float_l _ (PyInt (LANES s * 8)) l8) by (done || (simpl; lia)).
  unfold int_div, int_mod. destruct (Z.eqb_spec (RUMBLE_LENGTH s) 0) as [|_]; [done|].
  unfold_py. simpl.
  destruct (_ =? 0); [|by eexists].
  apply for_each_returns. intros lane [Hl0 Hl1]%elem_of_range w1.
  destruct (float_of_Z_small (lane + 1)) as [l Hl]; [lia|].
  destruct (lane_points_floats _ _ _ _ _ _ (PyFloat (h - ty)) (PyFloat (h - by'))
              (tw / l8) (bw / l8) step lane l Htx Htw Hbx Hbw Hl) as [pts ->].
  by eexists.
Qed.

Lemma round_float a r : round a = Ok r → ∃ f, r = PyFloat f.
Proof. unfold round. destruct (as_float a); simpl; [|done]. intros [= <-]. by eexists. Qed.

Lemma store_on_screen s w off pos player_y v p :
  projected s w off pos player_y = Ok v → on_screen (store v p).
Proof.
  unfold projected. intros H. repeat next_op. injection H as <-.
  repeat match goal with
         | E : round _ = Ok _ |- _ => apply round_float in E as [? ->]
         end.
  red. simpl. eexists _, _, _. by simplify_map_eq.
Qed.

(** C3.  On a projected segment, with settings whose lane constants are
    defined, [render_road] runs to its end and draws the road, the two
    footpaths and the two gutters, followed by exactly [LANES - 1] lane
    separators when [(index / RUMBLE_LENGTH) % 2 == 0] and by none
    otherwise.  With four lanes and a rumble length of three, the segments
    of index 0 to 5 that get separators are exactly 0, 1 and 2. *)
Theorem render_road_separators s self window :
  road_ready s self →
  ∃ base lanes,
    render_road s self window = (Ok tt, window ++ base ++ lanes) ∧
    road_base s self base ∧
    Forall (lane_separator self) lanes ∧
    Z.of_nat (length lanes) =
      (if (index self / RUMBLE_LENGTH s) mod 2 =? 0 then LANES s - 1 else 0) ∧
    (LANES s = 4 → RUMBLE_LENGTH s = 3 → 0 ≤ index self ≤ 5 →
     Z.of_nat (length lanes) = if index self <=? 2 then 3 else 0).
Proof.
  intros Hready. destruct (render_road_returns s self window Hready) as [w' H].
  destruct (render_road_draws _ _ _ _ H) as (base & lanes & -> & Hbase & Hl & Hn).
  assert (1 ≤ LANES s) as HL by apply Hready.
  exists base, lanes. repeat split; try done.
  - rewrite Hn. destruct (_ =? 0); lia.
  - intros H4 H3 Hi. rewrite Hn, H4, H3.
    assert (index self = 0 ∨ index self = 1 ∨ index self = 2 ∨ index self = 3 ∨
            index self = 4 ∨ index self = 5) as Hcases by lia.
    destruct Hcases as [-> | [-> | [-> | [-> | [-> | ->]]]]]; reflexivity.
Qed.

Lemma render_road_separators_witness :
  ∃ base lanes,
    render_road Demo.conf
      (project Demo.conf (PyInt 0) (PyInt 0) (PyInt 0) (PyInt (-1)) (PyInt 0)
         (Demo.flat 2)).2 [] = (Ok tt, [] ++ base ++ lanes) ∧
    road_base Demo.conf
      (project Demo.conf (PyInt 0) (PyInt 0) (PyInt 0) (PyInt (-1)) (PyInt 0)
         (Demo.flat 2)).2 base ∧
    Forall (lane_separator
              (project Demo.conf (PyInt 0) (PyInt 0) (PyInt 0) (PyInt (-1)) (PyInt 0)
                 (Demo.flat 2)).2) lanes ∧
    Z.of_nat (length lanes) = (if (2 / 3) mod 2 =? 0 then 4 - 1 else 0) ∧
    (LANES Demo.conf = 4 → RUMBLE_LENGTH Demo.conf = 3 → 0 ≤ 2 ≤ 5 →
     Z.of_nat (length lanes) = if 2 <=? 2 then 3 else 0).
Proof.
  apply (render_road_separators Demo.conf
           (project Demo.conf (PyInt 0) (PyInt 0) (PyInt 0) (PyInt (-1)) (PyInt 0)
              (Demo.flat 2)).2 []).
  repeat split; try (repeat eexists; reflexivity); try lia; done.
Defined.

(** C7.  Projecting a second time with the same arguments changes nothing:
    the segment (camera and screen records of both lines included) and the
    outcome are those of the first call.  The formulas read the world
    coordinates only, which no projection writes. *)
Theorem project_idempotent s cx c cd pos player_y self :
  project s cx c cd pos player_y (project s cx c cd pos player_y self).2 =
  project s cx c cd pos player_y self.
Proof.
  assert (Hagain : ∀ st, project s cx c cd pos player_y self = st →
                         project s cx c cd pos player_y st.2 = st);
    [|by apply Hagain].
  intros st. rewrite !project_unfold. unfold rsub.
  destruct (sub cx c) as [off_bottom|e] eqn:Hb; simpl; [|by intros <-].
  destruct (sub off_bottom cd) as [off_top|e] eqn:Ht; simpl; [|by intros <-].
  destruct (project_line s off_top pos player_y (top self)) as [[[]|e] p] eqn:Hp.
  - destruct (project_line s off_bottom pos player_y (bottom self)) as [r q] eqn:Hq.
    intros <-. simpl.
    by rewrite (project_line_again _ _ _ _ _ _ _ Hp),
      (project_line_again _ _ _ _ _ _ _ Hq).
  - intros <-. simpl. by rewrite (project_line_again _ _ _ _ _ _ _ Hp).
Qed.

(** *** Adjacent segments *)



Lemma project_ok_inv s cx c cd pos player_y self self' :
  project s cx c cd pos player_y self = (Ok tt, self') →
  ∃ off_top off_bottom,
    rsub (sub cx c) (Ok cd) = Ok off_top ∧ sub cx c = Ok off_bottom ∧
    project_line s off_top pos player_y (top self) = (Ok tt, top self') ∧
    project_line s off_bottom pos player_y (bottom self) = (Ok tt, bottom self').
Proof.
  rewrite project_unfold. unfold rsub.
  destruct (sub cx c) as [off_bottom|]; simpl; [|done].
  destruct (sub off_bottom cd) as [off_top|]; simpl; [|done].
  destruct (project_line s off_top _ _ _) as [[[]|] p] eqn:Hp; [|done].
  destruct (project_line s off_bottom _ _ _) as [[[]|] q] eqn:Hq; [|done].
  intros [= <-]. exists off_top, off_bottom. by rewrite Hp, Hq.
Qed.

Lemma init_lines s palette i crv start_y end_y self :
  init s palette i crv start_y end_y = Ok self →
  ∃ zt zb,
    mul (PyInt (i + 1)) (SEGMENT_HEIGHT s) = Ok zt ∧
    mul (PyInt i) (SEGMENT_HEIGHT s) = Ok zb ∧
    top self = Line {[ "y" := end_y; "z" := zt ]} ∅ ∅ ∧
    bottom self = Line {[ "y" := start_y; "z" := zb ]} ∅ ∅ ∧
    index self = i.
Proof.
  unfold init, initialize_line. intros H.
  destruct (item _ _); simpl in H; [|done].
  destruct (mul (PyInt (i + 1)) _) as [zt|]; simpl in H; [|done].
  destruct (mul (PyInt i) _) as [zb|]; simpl in H; [|done].
  injection H as <-. by exists zt, zb.
Qed.

(** *** Exceptions of the projection *)

Lemma as_float_raises a e : as_float a = Raise e → e = OverflowError.
Proof.
  destruct a as [z|f]; simpl; [|done]. unfold float_of_Z.
  destruct (_ <? _); congruence.
Qed.

Lemma arith_raises zop fop a b e :
  arith zop fop a b = Raise e → e = OverflowError.
Proof.
  unfold arith. destruct a as [x|x], b as [y|y]; simpl; try done.
  - destruct (float_of_Z x) eqn:E; simpl; [done|].
    intros [= <-]. by apply (as_float_raises (PyInt x)).
  - destruct (float_of_Z y) eqn:E; simpl; [done|].
    intros [= <-]. by apply (as_float_raises (PyInt y)).
Qed.

Lemma div_raises a b e :
  div a b = Raise e → e = ZeroDivisionError ∨ e = OverflowError.
Proof.
  unfold div, int_div.
  destruct a as [x|x], b as [y|y]; simpl;
    repeat match goal with
           | |- context [float_of_Z ?z] =>
               let E := fresh in
               destruct (float_of_Z z) eqn:E; simpl;
               [|apply (as_float_raises (PyInt z)) in E]
           | |- context [if ?c then _ else _] => destruct c; simpl
           end; intros [= <-]; auto.
Qed.

Lemma round_raises a e : round a = Raise e → e = OverflowError.
Proof.
  unfold round. destruct (as_float a) eqn:E; simpl; [done|].
  intros [= <-]. by apply as_float_raises in E.
Qed.

(** A zero divisor always ends the division with an exception. *)
Lemma div_by_zero a b q : eq_zero b = true → div a b ≠ Ok q.
Proof.
  unfold div, int_div. intros Hb.
  destruct a as [x|x], b as [y|y]; simpl in *.
  - by rewrite Hb.
  - destruct (float_of_Z x); simpl; [by rewrite Hb | done].
  - destruct (float_of_Z y); simpl; [by rewrite Hb | done].
  - by rewrite Hb.
Qed.

Ltac split_ops :=
  repeat match goal with
         | H : mbind _ ?r = _ |- _ => destruct r eqn:?; simpl in H
         | H : Raise _ = Raise _ |- _ => injection H as ->
         | H : Ok _ = Raise _ |- _ => discriminate H
         | H : Raise _ = Ok _ |- _ => discriminate H
         end.

Lemma project_line_raises s off pos player_y p e p' :
  project_line s off pos player_y p = (Raise e, p') →
  e = ZeroDivisionError ∨ e = OverflowError.
Proof.
  intros H. unfold project_line, radd, rsub, rmul in H. unfold_py.
  run_in H; try discriminate H; injection H as <- <-; split_ops;
    unfold add, sub, mul in *;
    eauto using arith_raises, div_raises, round_raises.
Qed.

Lemma project_line_zero_depth s off pos player_y p cz :
  sub (get (world p) "z" (PyInt 0)) pos = Ok cz → eq_zero cz = true →
  ∃ e, (project_line s off pos player_y p).1 = Raise e ∧
       screen (project_line s off pos player_y p).2 = screen p.
Proof.
  intros Hcz Hz. destruct (project_line _ _ _ _ p) as [r p'] eqn:H.
  unfold project_line, radd, rsub, rmul in H. unfold_py.
  run_in H; injection H as <- <-;
    try match goal with
        | Hc : Ok ?a = Ok cz, Hd : div _ ?a = Ok _ |- _ =>
            injection Hc as ->; by apply div_by_zero in Hd
        end;
    first [done | by eexists].
Qed.

(** C5, as the code has it.  When the depth of a line, its world [z] minus
    [position], is zero, [project] raises: [ZeroDivisionError], or the
    [OverflowError] of an integer too large for a float met before the
    division.  The screen record of that line is left as it was. *)
Theorem project_zero_depth_raises s cx c cd pos player_y self n cz :
  sub (get (world (getattr n self)) "z" (PyInt 0)) pos = Ok cz →
  eq_zero cz = true →
  ∃ e, (project s cx c cd pos player_y self).1 = Raise e ∧
       (e = ZeroDivisionError ∨ e = OverflowError) ∧
       screen (getattr n (project s cx c cd pos player_y self).2) =
         screen (getattr n self).
Proof.
  intros Hcz Hz. rewrite project_unfold. unfold rsub.
  destruct (sub cx c) as [off_bottom|e] eqn:Hb; simpl;
    [|exists e; eauto using arith_raises].
  destruct (sub off_bottom cd) as [off_top|e] eqn:Ht; simpl;
    [|exists e; eauto using arith_raises].
  destruct (project_line s off_top pos player_y (top self)) as [[[]|e] p] eqn:Hp.
  - destruct n; simpl in *.
    + destruct (project_line_zero_depth s off_top pos player_y _ _ Hcz Hz)
        as (e & He & _). by rewrite Hp in He.
    + destruct (project_line_zero_depth s off_bottom pos player_y _ _ Hcz Hz)
        as (e & He & Hs).
      destruct (project_line s off_bottom pos player_y (bottom self))
        as [r q] eqn:Hq. simpl in *. subst r.
      exists e. eauto using project_line_raises.
  - exists e. split; [done|]. split; [by eapply project_line_raises|].
    destruct n; simpl in *; [|done].
    destruct (project_line_zero_depth s off_top pos player_y _ _ Hcz Hz)
      as (_ & _ & Hs). by rewrite Hp in Hs.
Qed.

Lemma project_zero_depth_raises_witness :
  ∃ e, (project Demo.conf (PyInt 0) (PyInt 0) (PyInt 0) (PyInt 0) (PyInt 0)
          (Demo.flat 0)).1 = Raise e ∧
       (e = ZeroDivisionError ∨ e = OverflowError) ∧
       screen (getattr BottomLine
                 (project Demo.conf (PyInt 0) (PyInt 0) (PyInt 0) (PyInt 0) (PyInt 0)
                    (Demo.flat 0)).2) =
         screen (getattr BottomLine (Demo.flat 0)).
Proof.
  apply (project_zero_depth_raises Demo.conf (PyInt 0) (PyInt 0) (PyInt 0) (PyInt 0)
           (PyInt 0) (Demo.flat 0) BottomLine (PyInt 0)); reflexivity.
Defined.

(** C5, as stated, fails: a depth that is not finite raises nothing.  From
    an infinite [position] both lines get the depth minus infinity, and
    [project] returns normally with the scale and the road width -0.0 and
    the screen position at the centre of the window. *)
Lemma project_infinite_depth_returns :
  let r := project Demo.conf (PyInt 0) (PyInt 0) (PyInt 0) (PyFloat infinity)
             (PyInt 0) (Demo.flat 0) in
  r.1 = Ok tt ∧
  camera (top r.2) !! "z" = Some (PyFloat neg_infinity) ∧
  camera (bottom r.2) !! "z" = Some (PyFloat neg_infinity) ∧
  screen (top r.2) !! "s" = Some (PyFloat (-0)) ∧
  screen (top r.2) !! "x" = Some (PyFloat 400) ∧
  screen (top r.2) !! "y" = Some (PyFloat 300) ∧
  screen (top r.2) !! "w" = Some (PyFloat (-0)).
Proof. vm_compute. done. Qed.

(** *** Removing sprites *)

Lemma list_remove_absent {A} `{EqDecision A} (x : A) l :
  x ∉ l → list_remove x l = Raise ValueError.
Proof.
  induction l as [|y l IH]; simpl; [done|].
  intros [Hxy Hl]%not_elem_of_cons.
  destruct (decide (y = x)) as [->|_]; [done|]. by rewrite IH.
Qed.

Lemma list_remove_first {A} `{EqDecision A} (x : A) l1 l2 :
  x ∉ l1 → list_remove x (l1 ++ x :: l2) = Ok (l1 ++ l2).
Proof.
  induction l1 as [|y l1 IH]; simpl.
  - intros _. by destruct (decide (x = x)).
  - intros [Hxy Hl]%not_elem_of_cons.
    destruct (decide (y = x)) as [->|_]; [done|]. by rewrite IH.
Qed.

(** C9.  Removing a sprite the segment does not hold returns normally and
    leaves the segment, its sprites included, exactly as it was; removing
    one it holds returns normally too, and the sprites afterwards are the
    former ones less one occurrence of that sprite, the rest of the
    segment untouched. *)
Theorem remove_sprite_absent_or_present sprite self :
  (sprite ∉ sprites self → remove_sprite sprite self = (Ok tt, self)) ∧
  (sprite ∈ sprites self →
   ∃ l, remove_sprite sprite self = (Ok tt, set_sprites l self) ∧
        sprites self ≡ₚ sprite :: l).
Proof.
  unfold remove_sprite, try_pass. split.
  - intros H. by rewrite (list_remove_absent _ _ H).
  - intros (l1 & l2 & Hl & H1)%list_elem_of_split_l.
    rewrite Hl, (list_remove_first _ _ _ H1). exists (l1 ++ l2).
    split; [done|]. by rewrite Permutation_middle.
Qed.

(** C10.  A sprite held more than once loses its earliest occurrence only:
    with the sprites [l1 ++ sprite :: l2], where [l1] does not hold the
    sprite, removal leaves [l1 ++ l2], every later occurrence and every
    other element in place. *)
Theorem remove_sprite_earliest sprite self l1 l2 :
  sprites self = l1 ++ sprite :: l2 →
  sprite ∉ l1 →
  remove_sprite sprite self = (Ok tt, set_sprites (l1 ++ l2) self).
Proof.
  intros Hl H1. unfold remove_sprite, try_pass.
  by rewrite Hl, (list_remove_first _ _ _ H1).
Qed.

Lemma remove_sprite_earliest_witness :
  remove_sprite 3%positive (set_sprites [5; 3; 7; 3; 9]%positive (Demo.flat 0)) =
    (Ok tt,
     set_sprites ([5%positive] ++ [7; 3; 9]%positive)
       (set_sprites [5; 3; 7; 3; 9]%positive (Demo.flat 0))).
Proof.
  apply (remove_sprite_earliest 3%positive
           (set_sprites [5; 3; 7; 3; 9]%positive (Demo.flat 0))
           [5%positive] [7; 3; 9]%positive); [reflexivity|].
  apply not_elem_of_cons. split; [done | apply not_elem_of_nil].
Defined.

(** ** Further properties of the segment *)

Import Scene.

Lemma project_cases s cx c cd pos player_y self :
  (∃ e, project s cx c cd pos player_y self = (Raise e, self)) ∨
  (∃ off_top off_bottom,
     rsub (sub cx c) (Ok cd) = Ok off_top ∧ sub cx c = Ok off_bottom ∧
     ((∃ e, project_line s off_top pos player_y (top self)
              = (Raise e, top (project s cx c cd pos player_y self).2) ∧
            (project s cx c cd pos player_y self).1 = Raise e ∧
            bottom (project s cx c cd pos player_y self).2 = bottom self) ∨
      (project_line s off_top pos player_y (top self)
         = (Ok tt, top (project s cx c cd pos player_y self).2) ∧
       project_line s off_bottom pos player_y (bottom self)
         = ((project s cx c cd pos player_y self).1,
            bottom (project s cx c cd pos player_y self).2)))) ∧
  index (project s cx c cd pos player_y self).2 = index self ∧
  curve (project s cx c cd pos player_y self).2 = curve self ∧
  sprites (project s cx c cd pos player_y self).2 = sprites self ∧
  competitors (project s cx c cd pos player_y self).2 = competitors self ∧
  clip (project s cx c cd pos player_y self).2 = clip self ∧
  colour (project s cx c cd pos player_y self).2 = colour self.
Proof.
  rewrite !project_unfold. unfold rsub.
  destruct (sub cx c) as [off_bottom|e]; simpl; [|left; by eexists].
  destruct (sub off_bottom cd) as [off_top|e]; simpl; [|left; by eexists].
  right. split; [|by destruct (project_line s off_top _ _ _) as [[[]|] p];
                    [destruct (project_line s off_bottom _ _ _)|]].
  exists off_top, off_bottom. split; [done|]. split; [done|].
  destruct (project_line s off_top _ _ _) as [[[]|e] p].
  - right. by destruct (project_line s off_bottom _ _ _).
  - left. by exists e.
Qed.

Lemma project_keeps s cx c cd pos player_y self :
  index (project s cx c cd pos player_y self).2 = index self ∧
  curve (project s cx c cd pos player_y self).2 = curve self ∧
  sprites (project s cx c cd pos player_y self).2 = sprites self ∧
  competitors (project s cx c cd pos player_y self).2 = competitors self ∧
  clip (project s cx c cd pos player_y self).2 = clip self ∧
  colour (project s cx c cd pos player_y self).2 = colour self.
Proof.
  by destruct (project_cases s cx c cd pos player_y self) as [[e ->] | [_ H]].
Qed.

(** X1.  Whatever its arguments and whether it returns or raises,
    [project] writes camera and screen records only: the index, the curve,
    the sprites, the competitors, the clip value, the palette and the
    world coordinates of both lines are afterwards what they were. *)
Theorem project_frame s cx c cd pos player_y self :
  let self' := (project s cx c cd pos player_y self).2 in
  index self' = index self ∧ curve self' = curve self ∧
  sprites self' = sprites self ∧ competitors self' = competitors self ∧
  clip self' = clip self ∧ colour self' = colour self ∧
  world (top self') = world (top self) ∧
  world (bottom self') = world (bottom self).
Proof.
  simpl.
  destruct (project_cases s cx c cd pos player_y self)
    as [[e ->] | ((ot & ob & _ & _ & H) & Hi & Hc & Hs & Hk & Hl & Hp)]; [done|].
  repeat (split; [done|]).
  destruct H as [(e & Ht & _ & Hb) | [Ht Hb]].
  - rewrite Hb. split; [|done].
    pose proof (project_line_world s ot pos player_y (top self)) as Hw.
    by rewrite Ht in Hw.
  - pose proof (project_line_world s ot pos player_y (top self)) as Hw.
    pose proof (project_line_world s ob pos player_y (bottom self)) as Hw'.
    rewrite Ht in Hw. rewrite Hb in Hw'. done.
Qed.

Lemma project_line_keys s off pos player_y p k :
  (k ∉ camera_keys →
   camera (project_line s off pos player_y p).2 !! k = camera p !! k) ∧
  (k ∉ screen_keys →
   screen (project_line s off pos player_y p).2 !! k = screen p !! k).
Proof.
  destruct (project_line _ _ _ _ p) as [r p'] eqn:H. simpl.
  unfold camera_keys, screen_keys.
  unfold project_line, radd, rsub, rmul in H. unfold_py.
  run_in H; injection H as <- <-; simpl;
    (split; intros Hk;
     repeat (rewrite lookup_insert_ne by (intros <-; apply Hk; set_solver));
     done).
Qed.

(** X2.  A projection writes the keys [x], [y], [z] of a camera record
    and [s], [x], [y], [w] of a screen record, and no other: whatever
    either record of either line holds under another key, it still holds
    after [project], returned or raised. *)
Theorem project_other_keys s cx c cd pos player_y self n k :
  (k ∉ camera_keys →
   camera (getattr n (project s cx c cd pos player_y self).2) !! k
     = camera (getattr n self) !! k) ∧
  (k ∉ screen_keys →
   screen (getattr n (project s cx c cd pos player_y self).2) !! k
     = screen (getattr n self) !! k).
Proof.
  destruct (project_cases s cx c cd pos player_y self)
    as [[e ->] | ((ot & ob & _ & _ & H) & _)]; [done|].
  pose proof (project_line_keys s ot pos player_y (top self) k) as Kt.
  pose proof (project_line_keys s ob pos player_y (bottom self) k) as Kb.
  destruct H as [(e & Ht & _ & Hb) | [Ht Hb]].
  - rewrite Ht in Kt. destruct n; simpl; [done | by rewrite Hb].
  - rewrite Ht in Kt. rewrite Hb in Kb. by destruct n.
Qed.

(** X3.  An exception leaves at most one line half-written: when
    [project] raises, either the bottom line is untouched, or the top line
    has been projected in full. *)
Theorem project_raise_one_line s cx c cd pos player_y self e self' :
  project s cx c cd pos player_y self = (Raise e, self') →
  bottom self' = bottom self ∨
  ∃ off_top v,
    rsub (sub cx c) (Ok cd) = Ok off_top ∧
    projected s (world (top self)) off_top pos player_y = Ok v ∧
    top self' = store v (top self).
Proof.
  intros H.
  destruct (project_cases s cx c cd pos player_y self)
    as [[e' He] | ((ot & ob & Hot & _ & Hl) & _)].
  - rewrite He in H. injection H as <- <-. by left.
  - rewrite H in Hl. simpl in Hl. destruct Hl as [(_ & _ & _ & Hb) | [Ht _]].
    + by left.
    + right. apply project_line_inv in Ht as (v & Hv & Hs). by exists ot, v.
Qed.

Lemma project_raise_one_line_witness :
  bottom (project Demo.conf (PyInt 0) (PyInt 0) (PyInt 0) (PyInt 0) (PyInt 0)
            (Demo.flat 0)).2 = bottom (Demo.flat 0) ∨
  ∃ off_top v,
    rsub (sub (PyInt 0) (PyInt 0)) (Ok (PyInt 0)) = Ok off_top ∧
    projected Demo.conf (world (top (Demo.flat 0))) off_top (PyInt 0) (PyInt 0) = Ok v ∧
    top (project Demo.conf (PyInt 0) (PyInt 0) (PyInt 0) (PyInt 0) (PyInt 0)
           (Demo.flat 0)).2 = store v (top (Demo.flat 0)).
Proof.
  apply (project_raise_one_line Demo.conf (PyInt 0) (PyInt 0) (PyInt 0) (PyInt 0)
           (PyInt 0) (Demo.flat 0) ZeroDivisionError). reflexivity.
Defined.

Lemma projected_screen_floats s w off pos player_y v :
  projected s w off pos player_y = Ok v →
  ∃ x y wd : float,
    screen_x v = PyFloat x ∧ screen_y v = PyFloat y ∧ screen_w v = PyFloat wd.
Proof.
  unfold projected. intros H. repeat next_op. injection H as <-.
  repeat match goal with
         | E : round _ = Ok _ |- _ => apply round_float in E as [? ->]
         end.
  simpl. by eexists _, _, _.
Qed.

Lemma project_ok_lines s cx c cd pos player_y self self' :
  project s cx c cd pos player_y self = (Ok tt, self') →
  ∃ vt vb off_top off_bottom,
    projected s (world (top self)) off_top pos player_y = Ok vt ∧
    projected s (world (bottom self)) off_bottom pos player_y = Ok vb ∧
    top self' = store vt (top self) ∧ bottom self' = store vb (bottom self).
Proof.
  intros (ot & ob & _ & _ & Ht & Hb)%project_ok_inv.
  apply project_line_inv in Ht as (vt & Hvt & Hst).
  apply project_line_inv in Hb as (vb & Hvb & Hsb).
  by exists vt, vb, ot, ob.
Qed.

(** X4.  Once [project] has returned normally, [should_ignore] answers for
    every [y_coverage]: the three values it reads are in place. *)
Theorem should_ignore_after_project s cx c cd pos player_y self self' y_coverage :
  project s cx c cd pos player_y self = (Ok tt, self') →
  ∃ b, should_ignore s self' y_coverage = Ok b.
Proof.
  intros (vt & vb & ot & ob & _ & _ & Ht & Hb)%project_ok_lines.
  unfold should_ignore, item. rewrite Ht, Hb. simpl.
  rewrite lookup_insert_eq. simpl.
  destruct (le (camera_z vt) _); [by eexists|].
  rewrite lookup_insert_ne, lookup_insert_eq by done. simpl.
  destruct (le (screen_y vt) _); [by eexists|].
  rewrite lookup_insert_ne, lookup_insert_eq by done. simpl. by eexists.
Qed.

Lemma should_ignore_after_project_witness :
  ∃ b, should_ignore Demo.conf
         (project Demo.conf (PyInt 0) (PyInt 0) (PyInt 0) (PyInt (-1)) (PyInt 0)
            (Demo.flat 3)).2 (PyInt 100) = Ok b.
Proof.
  apply (should_ignore_after_project Demo.conf (PyInt 0) (PyInt 0) (PyInt 0)
           (PyInt (-1)) (PyInt 0) (Demo.flat 3)). reflexivity.
Defined.

(** X5.  Once [project] has returned normally the grass can be drawn:
    with a grass colour in the palette and a screen height that converts
    to a float, [render_grass] returns normally and appends one rectangle
    whose top and height are floats. *)
Theorem render_grass_after_project s cx c cd pos player_y self self' window col h :
  project s cx c cd pos player_y self = (Ok tt, self') →
  entry_item (colour self) "grass" = Ok col →
  as_float (DIMENSIONS s).2 = Ok h →
  ∃ y height : float,
    render_grass s self' window =
      (Ok tt, window ++ [DrawRect col (PyInt 0, PyFloat y, (DIMENSIONS s).1, PyFloat height)
                           (bool_to_Z (le (PyFloat height) (PyInt 1)))]).
Proof.
  intros Hp Hc Hh.
  assert (colour self' = colour self) as Hcol.
  { pose proof (project_keeps s cx c cd pos player_y self) as F.
    rewrite Hp in F. apply F. }
  apply project_ok_lines in Hp as (vt & vb & ot & ob & Hvt & Hvb & Ht & Hb).
  apply projected_screen_floats in Hvt as (tx & ty & tw & _ & Hty & _).
  apply projected_screen_floats in Hvb as (bx & by' & bw & _ & Hby & _).
  assert (screen (top self') !! "y" = Some (PyFloat ty)) as Lt.
  { rewrite Ht. simpl. by rewrite lookup_insert_ne, lookup_insert_eq, Hty. }
  assert (screen (bottom self') !! "y" = Some (PyFloat by')) as Lb.
  { rewrite Hb. simpl. by rewrite lookup_insert_ne, lookup_insert_eq, Hby. }
  unfold render_grass, rsub, item. rewrite Lt, Lb, Hcol. simpl.
  unfold sub. rewrite arith_float_float, (arith_float_r _ _ _ _ _ Hh).
  unfold_py. simpl. rewrite Hc. by eexists _, _.
Qed.

Lemma render_grass_after_project_witness :
  ∃ y height : float,
    render_grass Demo.conf
      (project Demo.conf (PyInt 0) (PyInt 0) (PyInt 0) (PyInt (-1)) (PyInt 0)
         (Demo.flat 3)).2 [] =
      (Ok tt, [] ++ [DrawRect (RGB 16 170 16)
                       (PyInt 0, PyFloat y, (DIMENSIONS Demo.conf).1, PyFloat height)
                       (bool_to_Z (le (PyFloat height) (PyInt 1)))]).
Proof.
  apply (render_grass_after_project Demo.conf (PyInt 0) (PyInt 0) (PyInt 0)
           (PyInt (-1)) (PyInt 0) (Demo.flat 3) _ [] (RGB 16 170 16) 600%float);
    reflexivity.
Defined.

(** X6.  A segment fresh from its constructor cannot be culled or drawn:
    before the first [project] its camera and screen records are empty,
    so [should_ignore] raises [KeyError] for ["z"], and [render_grass] and
    [render_road] raise it for ["y"] without drawing anything. *)
Theorem unprojected_segment_raises s palette i crv start_y end_y self y_coverage window :
  init s palette i crv start_y end_y = Ok self →
  should_ignore s self y_coverage = Raise (KeyError "z") ∧
  render_grass s self window = (Raise (KeyError "y"), window) ∧
  render_road s self window = (Raise (KeyError "y"), window).
Proof.
  intros (zt & zb & _ & _ & Ht & Hb & _)%init_lines.
  unfold should_ignore, render_grass, render_road, rsub, item.
  rewrite Ht, Hb. simpl. by rewrite !lookup_empty.
Qed.

Lemma unprojected_segment_raises_witness :
  should_ignore Demo.conf (Demo.flat 7) (PyInt 0) = Raise (KeyError "z") ∧
  render_grass Demo.conf (Demo.flat 7) [] = (Raise (KeyError "y"), []) ∧
  render_road Demo.conf (Demo.flat 7) [] = (Raise (KeyError "y"), []).
Proof.
  apply (unprojected_segment_raises Demo.conf "light" 7 (PyInt 0) (PyInt 0) (PyInt 0)).
  reflexivity.
Defined.

(** *** Drawing only appends *)

Lemma appends_lift {A} (r : result A) : appends 0 (lift (S := surface) r).
Proof. intros w. exists []. by rewrite app_nil_r. Qed.

Lemma appends_ret {A} (a : A) : appends 0 (ret (S := surface) a).
Proof. intros w. exists []. by rewrite app_nil_r. Qed.

Lemma appends_issue d : appends 1 (issue d).
Proof. intros w. by exists [d]. Qed.

Lemma appends_bind {A B} n k (m : py surface A) (f : A → py surface B) :
  appends n m → (∀ a, appends k (f a)) → appends (n + k) (bind m f).
Proof.
  intros Hm Hf w. unfold bind.
  destruct (Hm w) as (ds & Hds & Hn). destruct (m w) as [[a|e] w1]; simpl in *.
  - destruct (Hf a w1) as (ds' & Hds' & Hk). exists (ds ++ ds').
    rewrite Hds', Hds, length_app, app_assoc. split; [done | lia].
  - exists ds. split; [done | lia].
Qed.

Lemma appends_le {A} n k (m : py surface A) : (n ≤ k)%nat → appends n m → appends k m.
Proof. intros Hle Hm w. destruct (Hm w) as (ds & ? & ?). exists ds. split; [done | lia]. Qed.

Lemma appends_for_each {A} (xs : list A) (body : A → py surface unit) :
  (∀ x, appends 1 (body x)) → appends (length xs) (for_each xs body).
Proof.
  intros Hb. induction xs as [|x xs IH]; simpl.
  - apply appends_ret.
  - change (S (length xs)) with (1 + length xs)%nat. by apply appends_bind.
Qed.

Ltac appends_step :=
  first [ eapply appends_bind; [apply appends_lift | intros ?]
        | eapply appends_bind; [apply appends_issue | intros ?] ].

Lemma appends_render_lanes s self y_top y_bottom :
  appends (Z.to_nat (LANES s - 1)) (render_lanes s self y_top y_bottom).
Proof.
  assert (Z.to_nat (LANES s - 1) = length (range (LANES s - 1))) as ->
    by (unfold range; by rewrite length_fmap, length_seq).
  unfold render_lanes. generalize (range (LANES s - 1)) as lanes. intros lanes.
  eapply appends_le; cycle 1.
  - repeat appends_step. apply appends_for_each. intros lane.
    eapply appends_le; cycle 1.
    + repeat appends_step. apply appends_issue.
    + simpl. lia.
  - simpl. lia.
Qed.

(** X7.  [render_road] only ever appends to the window: whether it
    returns or raises, what the window held stays, in order, and at most
    [5 + max(0, LANES - 1)] primitives follow it. *)
Theorem render_road_appends s self window :
  ∃ ds, (render_road s self window).2 = window ++ ds ∧
        (length ds ≤ 5 + Z.to_nat (LANES s - 1))%nat.
Proof.
  assert (appends (5 + Z.to_nat (LANES s - 1)) (render_road s self)) as H;
    [|apply H].
  unfold render_road.
  eapply appends_le; cycle 1.
  - repeat appends_step.
    destruct (_ =? 0); [apply appends_render_lanes|].
    eapply appends_le; [|apply appends_ret]. apply Nat.le_0_l.
  - simpl. lia.
Qed.

(** X8.  [render_grass] draws all or nothing: it returns normally with
    exactly one rectangle appended, or it raises and the window is as it
    was. *)
Theorem render_grass_all_or_nothing s self window :
  (∃ c rect width,
     render_grass s self window = (Ok tt, window ++ [DrawRect c rect width])) ∨
  (∃ e, render_grass s self window = (Raise e, window)).
Proof.
  unfold render_grass. unfold_py.
  destruct (rsub _ _); [|right; by eexists].
  destruct (rsub _ _); [|right; by eexists].
  destruct (entry_item _ _); [|right; by eexists].
  left. by eexists _, _, _.
Qed.

(** *** The road at the edges of its settings *)

Lemma render_road_base s self w :
  base_ready s self →
  ∃ base y_top y_bottom,
    road_base s self base ∧
    render_road s self w =
      (stripe <- lift (q ← int_div (index self) (RUMBLE_LENGTH s); int_mod q 2);;
       if stripe =? 0 then render_lanes s self y_top y_bottom else ret tt)%py
        (w ++ base).
Proof.
  intros ((tx & ty & tw & Htx & Hty & Htw) & (bx & by' & bw & Hbx & Hby & Hbw) &
          (p & road & foot & Hc & Hroad & Hfoot) &
          (gutter & Hg) & (h & Hh) & (q & Hq & Hq0)).
  unfold render_road, rsub, radd, rdiv, rmul, entry_item.
  unfold item.
  rewrite Hc. simpl. rewrite Htx, Hty, Htw, Hbx, Hby, Hbw, Hroad, Hfoot, Hg, Hq.
  unfold add, sub. simpl.
  rewrite !(arith_float_r _ _ _ _ _ Hh).
  rewrite !(div_float_l _ (PyFloat q) q) by done.
  unfold_py. simpl. rewrite <- !app_assoc. simpl.
  eexists [_; _; _; _; _], _, _. split; [|reflexivity].
  red. rewrite Hc. simpl. unfold item. rewrite Hroad, Hfoot. eauto 15.
Qed.

(** X9.  With a rumble length of zero the lane test divides by zero: on a
    projected segment [render_road] draws the road, the footpaths and the
    gutters, and then raises [ZeroDivisionError]; no lane separator is
    drawn. *)
Theorem render_road_zero_rumble s self window :
  base_ready s self →
  RUMBLE_LENGTH s = 0 →
  ∃ base, road_base s self base ∧
          render_road s self window = (Raise ZeroDivisionError, window ++ base).
Proof.
  intros Hready Hr.
  destruct (render_road_base s self window Hready) as (base & yt & yb & Hbase & ->).
  exists base. split; [done|]. unfold_py. unfold int_div. by rewrite Hr.
Qed.

Lemma render_road_zero_rumble_witness :
  ∃ base, road_base (conf_with 4 0) (seen 2) base ∧
          render_road (conf_with 4 0) (seen 2) [] = (Raise ZeroDivisionError, [] ++ base).
Proof.
  apply (render_road_zero_rumble (conf_with 4 0) (seen 2) []); [|reflexivity].
  repeat split; repeat eexists; reflexivity.
Defined.

(** X10.  With no lanes at all the footpath divisor [LANES / 2.8] is 0.0:
    on a projected segment [render_road] draws the road quadrilateral and
    then raises [ZeroDivisionError]; footpaths, gutters and lane
    separators are not drawn. *)
Theorem render_road_no_lanes s self window p road h :
  LANES s = 0 →
  on_screen (top self) → on_screen (bottom self) →
  colour self = Palette p → p !! "road" = Some road →
  as_float (DIMENSIONS s).2 = Ok h →
  ∃ points, render_road s self window =
              (Raise ZeroDivisionError, window ++ [DrawPolygon road points]).
Proof.
  intros HL (tx & ty & tw & Htx & Hty & Htw) (bx & by' & bw & Hbx & Hby & Hbw)
    Hc Hroad Hh.
  unfold render_road, rsub, radd, rdiv, rmul, entry_item.
  unfold item.
  rewrite Hc, HL. simpl. rewrite Htx, Hty, Htw, Hbx, Hby, Hbw, Hroad.
  unfold add, sub. simpl.
  rewrite !(arith_float_r _ _ _ _ _ Hh).
  change (div (PyInt 0) (PyFloat 0x1.6666666666666p+1)) with (Ok (PyFloat 0)).
  simpl.
  change (div (PyFloat tw) (PyFloat 0)) with (@Raise number ZeroDivisionError).
  unfold_py. simpl. by eexists.
Qed.

Lemma render_road_no_lanes_witness :
  ∃ points, render_road (conf_with 0 3) (seen 2) [] =
              (Raise ZeroDivisionError, [] ++ [DrawPolygon (RGB 107 107 107) points]).
Proof.
  apply (render_road_no_lanes (conf_with 0 3) (seen 2) [] Demo.light (RGB 107 107 107)
           600%float); try reflexivity; repeat eexists; reflexivity.
Defined.

(** *** World objects *)

Lemma for_each_appending {A} (xs : list A) (body : A → py surface unit)
    (f : A → list draw) w :
  (∀ x w, body x w = (Ok tt, w ++ f x)) →
  for_each xs body w = (Ok tt, w ++ concat (f <$> xs)).
Proof.
  intros Hb. revert w. induction xs as [|x xs IH]; intros w; simpl.
  - by rewrite app_nil_r.
  - unfold bind. rewrite Hb, IH. by rewrite app_assoc.
Qed.

(** X11.  [render_world_objects] renders the sprites first and the
    competitors after them, each in the order of its list, and hands every
    object the segment's bottom screen record and clip value: if each
    object's [render] appends its own primitives, the window ends with
    those of the sprites followed by those of the competitors. *)
Theorem render_world_objects_order render f self window :
  (∀ obj anchor clip w, render obj anchor clip w = (Ok tt, w ++ f obj anchor clip)) →
  render_world_objects render self window =
    (Ok tt,
     window
       ++ concat ((λ obj, f obj (screen (bottom self)) (clip self)) <$> sprites self)
       ++ concat ((λ obj, f obj (screen (bottom self)) (clip self)) <$> competitors self)).
Proof.
  intros Hr. unfold render_world_objects.
  rewrite (for_each_appending _ _ (λ obj, f obj (screen (bottom self)) (clip self)))
    by (intros; apply Hr).
  by rewrite fmap_app, concat_app.
Qed.

Lemma render_world_objects_order_witness :
  render_world_objects stamp
    (Segment 0 (PyInt 0) [4; 2]%positive [9%positive] (PyInt 50) (Palette Demo.light)
       (top (seen 0)) (bottom (seen 0))) [] =
    (Ok tt,
     [] ++ concat ((λ obj, stamp_of obj (screen (bottom (seen 0))) (PyInt 50))
                     <$> [4; 2]%positive)
        ++ concat ((λ obj, stamp_of obj (screen (bottom (seen 0))) (PyInt 50))
                     <$> [9%positive])).
Proof.
  apply (render_world_objects_order stamp stamp_of
           (Segment 0 (PyInt 0) [4; 2]%positive [9%positive] (PyInt 50)
              (Palette Demo.light) (top (seen 0)) (bottom (seen 0))) []).
  reflexivity.
Defined.

(** *** More on removing sprites *)

Lemma without_cons x a l :
  without x (a :: l) = if decide (a = x) then l else a :: without x l.
Proof.
  unfold without. simpl. destruct (decide (a = x)); [done|].
  by destruct (list_remove x l).
Qed.

Lemma remove_sprite_without sprite self :
  remove_sprite sprite self = (Ok tt, set_sprites (without sprite (sprites self)) self).
Proof.
  unfold remove_sprite, try_pass, without.
  destruct (list_remove sprite (sprites self)); [done|]. by destruct self.
Qed.

Lemma without_comm x y l : without x (without y l) = without y (without x l).
Proof.
  induction l as [|a l IH]; [done|].
  rewrite !(without_cons _ a).
  destruct (decide (a = y)) as [Hy|Hy], (decide (a = x)) as [Hx|Hx];
    rewrite ?without_cons; repeat case_decide; congruence.
Qed.

(** X12.  Removals commute: taking two sprites off a segment leaves the
    same segment whichever is removed first. *)
Theorem remove_sprite_commutes a b self :
  (remove_sprite a (remove_sprite b self).2).2 =
  (remove_sprite b (remove_sprite a self).2).2.
Proof.
  rewrite !remove_sprite_without. simpl. unfold set_sprites. simpl.
  by rewrite without_comm.
Qed.

Lemma without_absent x l : x ∉ l → without x l = l.
Proof. intros H. unfold without. by rewrite list_remove_absent. Qed.

Lemma without_NoDup x l : NoDup l → x ∉ without x l.
Proof.
  induction 1 as [|a l Ha Hl IH]; [by rewrite without_absent; apply not_elem_of_nil|].
  rewrite without_cons. destruct (decide (a = x)) as [->|Hne]; [done|].
  apply not_elem_of_cons. split; [congruence | done].
Qed.

(** X13.  On a segment that holds no sprite twice, removal is idempotent:
    removing a sprite a second time returns normally and changes nothing
    more. *)
Theorem remove_sprite_twice sprite self :
  NoDup (sprites self) →
  remove_sprite sprite (remove_sprite sprite self).2 = remove_sprite sprite self.
Proof.
  intros Hnd. rewrite !remove_sprite_without. simpl. unfold set_sprites. simpl.
  by rewrite (without_absent _ _ (without_NoDup sprite _ Hnd)).
Qed.

Lemma remove_sprite_twice_witness :
  remove_sprite 3%positive
    (remove_sprite 3%positive
       (set_sprites [5; 3; 7]%positive (Demo.flat 0))).2 =
  remove_sprite 3%positive (set_sprites [5; 3; 7]%positive (Demo.flat 0)).
Proof.
  apply (remove_sprite_twice 3%positive (set_sprites [5; 3; 7]%positive (Demo.flat 0))).
  apply (bool_decide_unpack (NoDup [5; 3; 7]%positive)). vm_compute. exact I.
Defined.

(** *** A projection depends on the world coordinates only *)

Lemma project_line_outcome s off pos player_y p :
  (project_line s off pos player_y p).1 =
  (projected s (world p) off pos player_y ≫= λ _, Ok tt).
Proof.
  destruct (project_line _ _ _ _ p) as [r p'] eqn:H. simpl.
  unfold project_line, projected, radd, rsub, rmul in *. unfold_py.
  run_in H; injection H as <- <-; use_eqs; reflexivity.
Qed.

Lemma store_same_keys v p q k :
  (k ∈ camera_keys → camera (store v p) !! k = camera (store v q) !! k) ∧
  (k ∈ screen_keys → screen (store v p) !! k = screen (store v q) !! k).
Proof.
  unfold camera_keys, screen_keys, store. simpl.
  split; intros Hk; set_unfold;
    repeat (destruct Hk as [->|Hk]; [by simplify_map_eq|]); done.
Qed.

(** X14.  What the camera and screen records held before does not matter:
    two segments whose lines have the same world coordinates, projected
    with the same arguments, end in the same outcome, and when it is a
    normal return they hold the same values under every key a projection
    writes. *)
Theorem project_ignores_stale s cx c cd pos player_y a b :
  world (top a) = world (top b) →
  world (bottom a) = world (bottom b) →
  (project s cx c cd pos player_y a).1 = (project s cx c cd pos player_y b).1 ∧
  ((project s cx c cd pos player_y a).1 = Ok tt →
   ∀ n k,
     (k ∈ camera_keys →
      camera (getattr n (project s cx c cd pos player_y a).2) !! k
        = camera (getattr n (project s cx c cd pos player_y b).2) !! k) ∧
     (k ∈ screen_keys →
      screen (getattr n (project s cx c cd pos player_y a).2) !! k
        = screen (getattr n (project s cx c cd pos player_y b).2) !! k)).
Proof.
  intros Wt Wb. rewrite !project_unfold. unfold rsub.
  destruct (sub cx c) as [ob|e]; simpl; [|done].
  destruct (sub ob cd) as [ot|e]; simpl; [|done].
  pose proof (project_line_outcome s ot pos player_y (top a)) as Ota.
  pose proof (project_line_outcome s ot pos player_y (top b)) as Otb.
  pose proof (project_line_outcome s ob pos player_y (bottom a)) as Oba.
  pose proof (project_line_outcome s ob pos player_y (bottom b)) as Obb.
  rewrite <- Wt in Otb. rewrite <- Wb in Obb.
  destruct (project_line s ot pos player_y (top a)) as [ra pa] eqn:Ha.
  destruct (project_line s ot pos player_y (top b)) as [rb pb] eqn:Hb.
  destruct (project_line s ob pos player_y (bottom a)) as [ra' qa] eqn:Ha'.
  destruct (project_line s ob pos player_y (bottom b)) as [rb' qb] eqn:Hb'.
  simpl in *.
  assert (rb = ra) as -> by congruence. assert (rb' = ra') as -> by congruence.
  destruct ra as [[]|e]; simpl; [|done].
  split; [done|]. intros ->.
  apply project_line_inv in Ha as (vt & Hvt & ->).
  apply project_line_inv in Hb as (vt' & Hvt' & ->).
  apply project_line_inv in Ha' as (vb & Hvb & ->).
  apply project_line_inv in Hb' as (vb' & Hvb' & ->).
  assert (vt' = vt) as -> by congruence. assert (vb' = vb) as -> by congruence.
  intros [] k; simpl; apply store_same_keys.
Qed.

Lemma project_ignores_stale_witness :
  (project Demo.conf (PyInt 0) (PyInt 0) (PyInt 0) (PyInt (-5)) (PyInt 0) (seen 4)).1 =
  (project Demo.conf (PyInt 0) (PyInt 0) (PyInt 0) (PyInt (-5)) (PyInt 0) (Demo.flat 4)).1 ∧
  ((project Demo.conf (PyInt 0) (PyInt 0) (PyInt 0) (PyInt (-5)) (PyInt 0) (seen 4)).1
     = Ok tt →
   ∀ n k,
     (k ∈ camera_keys →
      camera (getattr n (project Demo.conf (PyInt 0) (PyInt 0) (PyInt 0) (PyInt (-5))
                           (PyInt 0) (seen 4)).2) !! k
        = camera (getattr n (project Demo.conf (PyInt 0) (PyInt 0) (PyInt 0) (PyInt (-5))
                               (PyInt 0) (Demo.flat 4)).2) !! k) ∧
     (k ∈ screen_keys →
      screen (getattr n (project Demo.conf (PyInt 0) (PyInt 0) (PyInt 0) (PyInt (-5))
                           (PyInt 0) (seen 4)).2) !! k
        = screen (getattr n (project Demo.conf (PyInt 0) (PyInt 0) (PyInt 0) (PyInt (-5))
                               (PyInt 0) (Demo.flat 4)).2) !! k)).
Proof.
  apply (project_ignores_stale Demo.conf (PyInt 0) (PyInt 0) (PyInt 0) (PyInt (-5))
           (PyInt 0) (seen 4) (Demo.flat 4)); reflexivity.
Defined.

(** *** A line at depth zero *)

Lemma div_by_two_raises a e : div a (PyInt 2) = Raise e → e = OverflowError.
Proof.
  destruct a as [x|x]; unfold div, int_div; simpl; [done|].
  change (float_of_Z 2) with (Ok 2%float). done.
Qed.

Lemma project_line_zero_division s off pos player_y p p' :
  project_line s off pos player_y p = (Raise ZeroDivisionError, p') →
  ∃ cz, sub (get (world p) "z" (PyInt 0)) pos = Ok cz ∧ camera p' !! "z" = Some cz.
Proof.
  intros H. unfold project_line, radd, rsub, rmul in H. unfold_py.
  run_in H; try discriminate H; injection H as He <-;
    try (eexists; split; [reflexivity | by simplify_map_eq]);
    exfalso; subst; split_ops; unfold add, sub, mul in *;
    repeat match goal with
           | E : arith _ _ _ _ = Raise _ |- _ => apply arith_raises in E
           | E : div _ (PyInt 2) = Raise _ |- _ => apply div_by_two_raises in E
           | E : round _ = Raise _ |- _ => apply round_raises in E
           end; congruence.
Qed.

(** X15.  A segment whose top line sits at depth zero is culled all the
    same: [project] raises [ZeroDivisionError], but only after the depth
    has been written, and with a camera depth constant that is not
    negative [should_ignore] then answers true from that depth alone,
    whatever the screen records hold. *)
Theorem zero_depth_is_culled s cx c cd pos player_y self self' cz y_coverage :
  sub (get (world (top self)) "z" (PyInt 0)) pos = Ok cz →
  eq_zero cz = true →
  le cz (CAMERA_DEPTH s) = true →
  project s cx c cd pos player_y self = (Raise ZeroDivisionError, self') →
  should_ignore s self' y_coverage = Ok true.
Proof.
  intros Hcz Hz Hle. rewrite project_unfold. unfold rsub.
  destruct (sub cx c) as [ob|e] eqn:Hb; simpl;
    [|intros [= -> _]; by apply arith_raises in Hb].
  destruct (sub ob cd) as [ot|e] eqn:Ht; simpl;
    [|intros [= -> _]; by apply arith_raises in Ht].
  destruct (project_line_zero_depth s ot pos player_y _ _ Hcz Hz) as (e & He & _).
  destruct (project_line s ot pos player_y (top self)) as [r p] eqn:Hp.
  simpl in He. subst r. intros [= -> <-].
  apply project_line_zero_division in Hp as (cz' & Hcz' & Hl).
  assert (cz' = cz) as -> by congruence.
  unfold should_ignore, item. simpl. rewrite Hl. simpl. by rewrite Hle.
Qed.

Lemma zero_depth_is_culled_witness :
  should_ignore Demo.conf
    (project Demo.conf (PyInt 0) (PyInt 0) (PyInt 0) (PyInt 200) (PyInt 0)
       (Demo.flat 0)).2 (PyInt 0) = Ok true.
Proof.
  apply (zero_depth_is_culled Demo.conf (PyInt 0) (PyInt 0) (PyInt 0) (PyInt 200)
           (PyInt 0) (Demo.flat 0) _ (PyInt 0)); reflexivity.
Defined.

(** ** Properties of the sprite *)

(** X16.  A sprite fresh from its constructor has not been hit, so
    whatever its descriptor says about hookers it loads its plain image:
    the file [os.path.join("lib", path)] of the descriptor's ["path"],
    and [KeyError] when the descriptor has none. *)
Theorem fresh_sprite_plain_path SPRITES image path_join image_load name x y self :
  Sprite.init SPRITES name x y = Ok self →
  SPRITES !! name = Some (Sprite.sprite self) ∧
  Sprite.hit self = false ∧
  Sprite.path image path_join image_load self =
    (p ← item (Sprite.sprite self) "path"; image_load (path_join "lib" p)).
Proof.
  unfold Sprite.init, item. destruct (SPRITES !! name) as [d|]; simpl; [|done].
  intros [= <-]. split; [done|]. split; [done|].
  unfold Sprite.path. simpl. by rewrite andb_false_r.
Qed.

Lemma fresh_sprite_plain_path_witness :
  ({[ "lady" := {[ "path" := "lady.png"; "hooker" := "yes" ]} ]} : gmap string (gmap string string))
    !! "lady" = Some (Sprite.sprite (Sprite.SpriteObject (PyInt 2) (PyInt 0)
                        {[ "path" := "lady.png"; "hooker" := "yes" ]} 3 false)) ∧
  Sprite.hit (Sprite.SpriteObject (PyInt 2) (PyInt 0)
                {[ "path" := "lady.png"; "hooker" := "yes" ]} 3 false) = false ∧
  Sprite.path string (λ a b, a +:+ "/" +:+ b) Ok
    (Sprite.SpriteObject (PyInt 2) (PyInt 0)
       {[ "path" := "lady.png"; "hooker" := "yes" ]} 3 false) =
    (p ← item (Sprite.sprite (Sprite.SpriteObject (PyInt 2) (PyInt 0)
                                {[ "path" := "lady.png"; "hooker" := "yes" ]} 3 false))
           "path";
     Ok ("lib" +:+ "/" +:+ p)).
Proof.
  apply (fresh_sprite_plain_path
           {[ "lady" := {[ "path" := "lady.png"; "hooker" := "yes" ]} ]}
           string (λ a b, a +:+ "/" +:+ b) Ok "lady" (PyInt 2) (PyInt 0)).
  reflexivity.
Defined.

Lemma replace_dots_app a b :
  Sprite.replace_dots (a +:+ b) = Sprite.replace_dots a +:+ Sprite.replace_dots b.
Proof.
  induction a as [|ch a IH]; simpl; [done|].
  rewrite IH. by destruct (Ascii.eqb ch ".").
Qed.

Lemma replace_dots_dotless a : dots a = 0%nat → Sprite.replace_dots a = a.
Proof.
  induction a as [|ch a IH]; simpl; [done|].
  destruct (Ascii.eqb ch "."); simpl; [done|]. intros H. by rewrite IH.
Qed.

(** X17.  A hooker that has been hit loads its dead image: for a path
    [base.ext] with no other dot, the file is [base_dead.ext] under
    ["lib"]. *)
Theorem hit_hooker_dead_path image path_join image_load self base ext :
  Sprite.sprite self !! "path" = Some (base +:+ "." +:+ ext) →
  dots base = 0%nat → dots ext = 0%nat →
  Sprite.is_hooker self = true →
  Sprite.hit self = true →
  Sprite.path image path_join image_load self =
    image_load (path_join "lib" (base +:+ "_dead." +:+ ext)).
Proof.
  intros Hp Hb He Hh Hhit. unfold Sprite.path, item. rewrite Hp, Hh, Hhit. simpl.
  rewrite !replace_dots_app, (replace_dots_dotless _ Hb), (replace_dots_dotless _ He).
  done.
Qed.

Lemma hit_hooker_dead_path_witness :
  Sprite.path string (λ a b, a +:+ "/" +:+ b) Ok
    (Sprite.SpriteObject (PyInt 2) (PyInt 0)
       {[ "path" := "lady.png"; "hooker" := "yes" ]} 3 true) =
    Ok ("lib" +:+ "/" +:+ ("lady" +:+ "_dead." +:+ "png")).
Proof.
  apply (hit_hooker_dead_path string (λ a b, a +:+ "/" +:+ b) Ok
           (Sprite.SpriteObject (PyInt 2) (PyInt 0)
              {[ "path" := "lady.png"; "hooker" := "yes" ]} 3 true)
           "lady" "png"); reflexivity.
Defined.

(** ** The perspective scale

    Division of positive binary64 numbers is weakly decreasing in the
    divisor: the quotients are roundings, ties to even, of real quotients
    that are ordered, and rounding is monotone. *)

Import Binary64.

Section Rounding.
Local Open Scope R_scope.

Lemma bpow_gt_0 e : 0 < bpow e.
Proof. apply powerRZ_lt. lra. Qed.

Lemma bpow_add a b : bpow (a + b) = bpow a * bpow b.
Proof. apply powerRZ_add. lra. Qed.

Lemma bpow_0 : bpow 0 = 1.
Proof. reflexivity. Qed.

Lemma bpow_1 : bpow 1 = 2.
Proof. unfold bpow. simpl. lra. Qed.

Lemma bpow_m1 : bpow (-1) = / 2.
Proof. unfold bpow. simpl. lra. Qed.

Lemma bpow_opp e : bpow (- e) = / bpow e.
Proof. apply powerRZ_neg'. Qed.

Lemma bpow_IZR e : (0 <= e)%Z → bpow e = IZR (2 ^ e).
Proof.
  intros He. destruct e as [|p|p]; [done| |lia].
  unfold bpow. by rewrite <- Zpower_pos_powerRZ.
Qed.

Lemma bpow_ge_1 e : (0 <= e)%Z → 1 <= bpow e.
Proof.
  intros He. rewrite bpow_IZR by done. apply IZR_le.
  assert (0 < 2 ^ e)%Z by (apply Z.pow_pos_nonneg; lia). lia.
Qed.

Lemma bpow_le a b : (a <= b)%Z → bpow a <= bpow b.
Proof.
  intros H. replace b with (a + (b - a))%Z by lia. rewrite bpow_add.
  pose proof (bpow_gt_0 a). pose proof (bpow_ge_1 (b - a) ltac:(lia)). nra.
Qed.

Lemma bpow_lt a b : (a < b)%Z → bpow a < bpow b.
Proof.
  intros H. replace b with (a + 1 + (b - a - 1))%Z by lia.
  rewrite !bpow_add, bpow_1.
  pose proof (bpow_gt_0 a). pose proof (bpow_ge_1 (b - a - 1) ltac:(lia)). nra.
Qed.

(** Number of binary digits *)
Lemma digits2_pos_bounds p :
  (2 ^ (Z.pos (digits2_pos p) - 1) <= Z.pos p < 2 ^ Z.pos (digits2_pos p))%Z.
Proof.
  induction p as [p IH|p IH|]; simpl digits2_pos.
  - rewrite Pos2Z.inj_succ.
    replace (Z.succ (Z.pos (digits2_pos p)) - 1)%Z with (Z.pos (digits2_pos p) - 1 + 1)%Z by lia.
    rewrite Z.pow_succ_r, Z.pow_add_r by lia. lia.
  - rewrite Pos2Z.inj_succ.
    replace (Z.succ (Z.pos (digits2_pos p)) - 1)%Z with (Z.pos (digits2_pos p) - 1 + 1)%Z by lia.
    rewrite Z.pow_succ_r, Z.pow_add_r by lia. lia.
  - simpl. lia.
Qed.

Lemma digits_bpow p :
  bpow (Z.pos (digits2_pos p) - 1) <= IZR (Z.pos p) < bpow (Z.pos (digits2_pos p)).
Proof.
  pose proof (digits2_pos_bounds p) as [H1 H2].
  rewrite !bpow_IZR by lia. split; [by apply IZR_le | by apply IZR_lt].
Qed.

Lemma IZR_xI p : IZR (Z.pos p~1) = 2 * IZR (Z.pos p) + 1.
Proof. rewrite Pos2Z.inj_xI, plus_IZR, mult_IZR. lra. Qed.

Lemma IZR_xO p : IZR (Z.pos p~0) = 2 * IZR (Z.pos p).
Proof. rewrite Pos2Z.inj_xO, mult_IZR. lra. Qed.

Lemma shr_1_inbetween y mrs : inbetween y mrs → inbetween (y / 2) (shr_1 mrs).
Proof.
  destruct mrs as [m r s]. unfold inbetween. simpl. intros [Hm H].
  destruct m as [|[p|p|]|p]; try lia;
    try pose proof (IZR_xI p); try pose proof (IZR_xO p);
    destruct r, s; simpl in *; (split; [lia | lra]).
Qed.

Lemma iter_pos_shr_1 n : ∀ y mrs,
  inbetween y mrs → inbetween (y * bpow (- Z.pos n)) (SpecFloat.iter_pos shr_1 n mrs).
Proof.
  induction n as [n IH|n IH|]; intros y mrs H; simpl SpecFloat.iter_pos.
  - apply shr_1_inbetween, IH, IH in H.
    replace (y * bpow (- Z.pos n~1)) with (y / 2 * bpow (- Z.pos n) * bpow (- Z.pos n)); [done|].
    replace (- Z.pos n~1)%Z with (-1 + (- Z.pos n + - Z.pos n))%Z by lia.
    rewrite !bpow_add, bpow_m1. lra.
  - apply IH, IH in H.
    replace (y * bpow (- Z.pos n~0)) with (y * bpow (- Z.pos n) * bpow (- Z.pos n)); [done|].
    replace (- Z.pos n~0)%Z with (- Z.pos n + - Z.pos n)%Z by lia.
    rewrite !bpow_add. lra.
  - apply shr_1_inbetween in H. change (- Z.pos 1)%Z with (-1)%Z.
    replace (y * bpow (-1)) with (y / 2); [done|].
    rewrite bpow_m1. lra.
Qed.

Lemma rne_mono y1 y2 M1 M2 : y2 <= y1 → rne y2 M2 → rne y1 M1 → (M2 <= M1)%Z.
Proof.
  intros Hy [H2 E2] [H1 E1].
  destruct (Z_le_gt_dec M2 M1) as [|Hgt]; [done|exfalso].
  assert (IZR M1 + 1 <= IZR M2) as HM.
  { rewrite <- plus_IZR. apply IZR_le. lia. }
  assert (y1 = IZR M1 + / 2) as Hy1 by lra.
  assert (y2 = IZR M2 - / 2) as Hy2 by lra.
  assert (IZR M2 = IZR (M1 + 1)) as HMe by (rewrite plus_IZR; lra).
  apply eq_IZR in HMe. subst M2.
  specialize (E1 (or_intror Hy1)). specialize (E2 (or_introl Hy2)).
  rewrite Z.even_add in E2. rewrite E1 in E2. discriminate E2.
Qed.

Lemma rne_IZR k : rne (IZR k) k.
Proof.
  split; [lra|]. intros [H|H]; lra.
Qed.

Lemma round_nearest_even_rne y mrs :
  inbetween y mrs →
  rne y (round_nearest_even (shr_m mrs) (loc_of_shr_record mrs)).
Proof.
  destruct mrs as [m r s]. unfold inbetween, rne. simpl. intros [Hm H].
  destruct r, s; simpl.
  - rewrite plus_IZR. split; [lra|]. intros [?|?]; lra.
  - destruct (Z.even m) eqn:Hev.
    + split; [lra|]. done.
    + rewrite plus_IZR. split; [lra|]. intros _.
      rewrite Z.even_add, Hev. done.
  - split; [lra|]. intros [?|?]; lra.
  - split; [lra|]. intros [?|?]; lra.
Qed.

Lemma bpow_lt_inv a b : bpow a < bpow b → (a < b)%Z.
Proof.
  intros H. destruct (Z_lt_ge_dec a b) as [|Hge]; [done|].
  pose proof (bpow_le b a ltac:(lia)). lra.
Qed.

Lemma bpow_sub_mul x a : x * bpow (- a) * bpow a = x.
Proof.
  rewrite Rmult_assoc, <- bpow_add. replace (- a + a)%Z with 0%Z by lia.
  rewrite bpow_0. lra.
Qed.

Lemma fexp_eq e : fexp prec emax e = Z.max (e - 53) (-1074).
Proof. reflexivity. Qed.

Lemma Zdigits2_bounds m :
  (0 <= m)%Z → IZR m < bpow (Zdigits2 m) ∧ ((0 < m)%Z → bpow (Zdigits2 m - 1) <= IZR m).
Proof.
  destruct m as [|p|p]; intros Hm; [| |lia].
  - change (Zdigits2 0) with 0%Z. rewrite bpow_0. split; [lra | lia].
  - change (Zdigits2 (Z.pos p)) with (Z.pos (digits2_pos p)).
    pose proof (digits_bpow p). split; [lra | intros _; lra].
Qed.

Lemma Zdigits2_le m k : (0 <= m)%Z → (0 <= k)%Z → IZR m < bpow k → (Zdigits2 m <= k)%Z.
Proof.
  intros Hm Hk H. destruct m as [|p|p]; [done| |lia].
  change (Zdigits2 (Z.pos p)) with (Z.pos (digits2_pos p)).
  pose proof (digits_bpow p) as [H1 _].
  assert (bpow (Z.pos (digits2_pos p) - 1) < bpow k) as Hlt by lra.
  apply bpow_lt_inv in Hlt. lia.
Qed.

Lemma rounds_to_range x M E : 0 <= x → rounds_to x M E → (0 <= M <= 2 ^ 53)%Z.
Proof.
  intros Hx (HE & Hr & Hlt & _).
  pose proof (bpow_gt_0 (- E)) as Hp.
  split.
  - apply (rne_mono _ 0 _ 0) in Hr; [done| |apply (rne_IZR 0)]. nra.
  - apply (rne_mono (IZR (2 ^ 53)) _ (2 ^ 53)%Z) in Hr; [done| |apply rne_IZR].
    rewrite <- bpow_IZR by lia.
    replace (bpow 53) with (bpow (E + 53) * bpow (- E)).
    + nra.
    + rewrite <- bpow_add. f_equal. lia.
Qed.

Lemma shr_fexp_spec mx ex lx x :
  inbetween (x * bpow (- ex)) (shr_record_of_loc mx lx) →
  ∃ mrs E,
    shr_fexp prec emax mx ex lx = (mrs, E) ∧
    E = Z.max ex (fexp prec emax (Zdigits2 mx + ex)) ∧
    inbetween (x * bpow (- E)) mrs.
Proof.
  intros H. unfold shr_fexp, shr.
  destruct (fexp prec emax (Zdigits2 mx + ex) - ex)%Z as [|p|p] eqn:Hn.
  - eexists _, ex. split; [done|]. split; [lia | done].
  - eexists _, _. split; [done|]. split; [lia|].
    apply (iter_pos_shr_1 p) in H.
    replace (x * bpow (- (ex + Z.pos p))) with (x * bpow (- ex) * bpow (- Z.pos p)); [done|].
    replace (- (ex + Z.pos p))%Z with (- ex + - Z.pos p)%Z by lia.
    rewrite bpow_add. lra.
  - eexists _, ex. split; [done|]. split; [lia | done].
Qed.

Lemma shr_record_of_loc_m m l : shr_m (shr_record_of_loc m l) = m.
Proof. by destruct l as [|[]]. Qed.

Lemma rounds_to_of_shr mx ex lx x :
  0 < x → (0 <= mx)%Z →
  inbetween (x * bpow (- ex)) (shr_record_of_loc mx lx) →
  ((ex <= -1074)%Z ∨ bpow (ex + 52) <= x) →
  ∃ mrs E,
    shr_fexp prec emax mx ex lx = (mrs, E) ∧
    rounds_to x (round_nearest_even (shr_m mrs) (loc_of_shr_record mrs)) E.
Proof.
  intros Hx Hmx Hin Hpre.
  destruct (shr_fexp_spec mx ex lx x Hin) as (mrs & E & Hs & HE & Hin').
  exists mrs, E. split; [done|].
  rewrite fexp_eq in HE.
  (* position of x against the digits of mx *)
  assert (x * bpow (- ex) < bpow (Zdigits2 mx)) as Hup.
  { destruct Hin as [_ Hin]. rewrite shr_record_of_loc_m in Hin.
    destruct (Zdigits2_bounds mx Hmx) as [Hd Hd'].
    destruct (Z.eq_dec mx 0%Z) as [->|Hne].
    - change (Zdigits2 0) with 0%Z. rewrite bpow_0.
      destruct (shr_r _), (shr_s _); simpl in *; lra.
    - specialize (Hd' ltac:(lia)).
      assert (IZR mx + 1 <= bpow (Zdigits2 mx)) as Hs1.
      { assert (0 <= Zdigits2 mx)%Z as Hdn
          by (destruct mx; simpl; lia).
        rewrite bpow_IZR in * by done. rewrite <- plus_IZR. apply IZR_le.
        apply lt_IZR in Hd. lia. }
      destruct (shr_r _), (shr_s _); simpl in *; lra. }
  assert (IZR mx <= x * bpow (- ex)) as Hlow.
  { destruct Hin as [_ Hin]. rewrite shr_record_of_loc_m in Hin.
    destruct (shr_r _), (shr_s _); simpl in *; lra. }
  pose proof (bpow_gt_0 ex) as Hpex.
  assert (x < bpow (Zdigits2 mx + ex)) as Hup'.
  { rewrite bpow_add. rewrite <- (bpow_sub_mul x ex). nra. }
  split; [|split; [|split]].
  - lia.
  - by apply round_nearest_even_rne.
  - eapply Rlt_le_trans; [exact Hup'|]. apply bpow_le. lia.
  - destruct (Z.eq_dec E (-1074)%Z) as [|HEn]; [by left | right].
    destruct (Z_le_gt_dec E ex) as [Hle|Hgt].
    + assert (E = ex) as -> by lia. destruct Hpre as [|]; [lia | done].
    + assert (E = Zdigits2 mx + ex - 53)%Z as -> by lia.
      assert (0 < mx)%Z as Hpos.
      { destruct (Z.eq_dec mx 0%Z) as [->|]; [|lia].
        change (Zdigits2 0) with 0%Z in *. lia. }
      destruct (Zdigits2_bounds mx Hmx) as [_ Hd']. specialize (Hd' Hpos).
      replace (Zdigits2 mx + ex - 53 + 52)%Z with (Zdigits2 mx - 1 + ex)%Z by lia.
      rewrite bpow_add. rewrite <- (bpow_sub_mul x ex). nra.
Qed.

Lemma binary_round_aux_spec sx mx ex lx x :
  0 < x → (0 <= mx)%Z →
  inbetween (x * bpow (- ex)) (shr_record_of_loc mx lx) →
  ((ex <= -1074)%Z ∨ bpow (ex + 52) <= x) →
  ∃ M E, rounds_to x M E ∧ binary_round_aux prec emax sx mx ex lx = pack sx M E.
Proof.
  intros Hx Hmx Hin Hpre.
  destruct (rounds_to_of_shr mx ex lx x Hx Hmx Hin Hpre) as (mrs & E & Hs & Hr).
  set (M := round_nearest_even (shr_m mrs) (loc_of_shr_record mrs)) in *.
  exists M, E. split; [done|].
  pose proof (rounds_to_range x M E ltac:(lra) Hr) as [HM0 HM1].
  destruct Hr as (HE & _).
  unfold binary_round_aux. rewrite Hs. fold M.
  unfold shr_fexp, shr, pack. rewrite fexp_eq.
  change (emax - prec)%Z with 971%Z.
  destruct (Z.eqb_spec M (2 ^ 53)) as [HM|HM].
  - rewrite HM. change (Zdigits2 (2 ^ 53)) with 54%Z.
    replace (Z.max (54 + E - 53) (-1074) - E)%Z with 1%Z by lia.
    replace (E + 1)%Z with (E + Z.pos 1)%Z by lia. reflexivity.
  - assert (Zdigits2 M <= 53)%Z as Hd.
    { apply Zdigits2_le; [done | lia |]. rewrite bpow_IZR by lia.
      apply IZR_lt. lia. }
    destruct (Z.max (Zdigits2 M + E - 53) (-1074) - E)%Z as [|p|p] eqn:Hn;
      [|lia|]; simpl; by destruct M.
Qed.

Lemma pack_mk sx M E :
  pack sx M E = mk_float sx (if M =? 2 ^ 53 then 2 ^ 52 else M)%Z
                            (if M =? 2 ^ 53 then E + 1 else E)%Z.
Proof. reflexivity. Qed.

Lemma mk_float_leb m1 e1 m2 e2 :
  (0 <= m2)%Z → (0 <= m1)%Z →
  (m2 = 0%Z ∨ (0 < m1)%Z ∧ ((e2 < e1)%Z ∨ e2 = e1 ∧ (m2 <= m1)%Z)) →
  SFleb (mk_float false m2 e2) (mk_float false m1 e1) = true.
Proof.
  intros H2 H1 H. unfold mk_float.
  destruct m2 as [|p2|p2]; [| |lia].
  - destruct m1 as [|p1|p1]; [done| |lia]. by destruct (e1 <=? 971)%Z.
  - destruct H as [|[Hm1 H]]; [lia|].
    destruct m1 as [|p1|p1]; [lia| |lia].
    destruct (Z.leb_spec e2 971), (Z.leb_spec e1 971); unfold SFleb, SFcompare.
    + destruct (Z.compare_spec e2 e1) as [He|He|He].
      * change (Pos.compare_cont Eq p2 p1) with (Pos.compare p2 p1).
        destruct (Pos.compare_spec p2 p1); [done|done|lia].
      * done.
      * lia.
    + done.
    + lia.
    + done.
Qed.

Lemma pack_leb M1 E1 M2 E2 :
  (0 <= M2 <= 2 ^ 53)%Z → (0 <= M1 <= 2 ^ 53)%Z →
  ((E2 < E1)%Z ∧ (2 ^ 52 <= M1)%Z ∨ E2 = E1 ∧ (M2 <= M1)%Z) →
  SFleb (pack false M2 E2) (pack false M1 E1) = true.
Proof.
  intros H2 H1 Hlex. rewrite !pack_mk.
  assert (0 < 2 ^ 52 < 2 ^ 53)%Z as Hp by (split; reflexivity).
  destruct (Z.eqb_spec M2 (2 ^ 53)) as [HM2|HM2],
           (Z.eqb_spec M1 (2 ^ 53)) as [HM1|HM1];
    (apply mk_float_leb; [lia | lia | lia]).
Qed.

Lemma rounds_to_mono x1 x2 M1 E1 M2 E2 :
  0 < x2 → x2 <= x1 → rounds_to x2 M2 E2 → rounds_to x1 M1 E1 →
  SFleb (pack false M2 E2) (pack false M1 E1) = true.
Proof.
  intros Hx Hle R2 R1.
  assert (0 <= x2) as Hx2 by lra. assert (0 <= x1) as Hx1 by lra.
  pose proof (rounds_to_range _ _ _ Hx2 R2) as H2.
  pose proof (rounds_to_range _ _ _ Hx1 R1) as H1.
  apply pack_leb; [done | done |].
  destruct R2 as (HE2 & Hr2 & Hlt2 & Hn2), R1 as (HE1 & Hr1 & Hlt1 & Hn1).
  assert (E2 <= E1)%Z as HE.
  { destruct (Z_le_gt_dec E2 E1) as [|Hgt]; [done|exfalso].
    destruct Hn2 as [->|Hn2]; [lia|].
    assert (bpow (E2 + 52) < bpow (E1 + 53)) as Hb by lra.
    apply bpow_lt_inv in Hb. lia. }
  destruct (Z.eq_dec E2 E1) as [->|Hne].
  - right. split; [done|].
    apply (rne_mono (x1 * bpow (- E1)) (x2 * bpow (- E1))); try done.
    pose proof (bpow_gt_0 (- E1)). nra.
  - left. split; [lia|].
    destruct Hn1 as [->|Hn1]; [lia|].
    apply (rne_mono (x1 * bpow (- E1)) (IZR (2 ^ 52)) M1 (2 ^ 52)%Z);
      [|apply rne_IZR|done].
    rewrite <- bpow_IZR by lia.
    replace (bpow 52) with (bpow (E1 + 52) * bpow (- E1)).
    + pose proof (bpow_gt_0 (- E1)). nra.
    + rewrite <- bpow_add. f_equal. lia.
Qed.

Lemma new_location_inbetween (n r q : Z) (y : R) :
  (0 < n)%Z → (0 <= r < n)%Z → (0 <= q)%Z →
  (y - IZR q) * IZR n = IZR r →
  inbetween y (shr_record_of_loc q (new_location n r)).
Proof.
  intros Hn Hr Hq Hy.
  assert (0 < IZR n) as Hn' by (by apply (IZR_lt 0)).
  assert (0 <= IZR r < IZR n) as Hr'
    by (split; [apply (IZR_le 0) | apply IZR_lt]; lia).
  assert (Hloc : ∀ c, (c = Lt → (0 < r)%Z ∧ (2 * r < n)%Z) →
                      (c = Eq → (2 * r = n)%Z) →
                      (c = Gt → (n < 2 * r)%Z) →
                      inbetween y (shr_record_of_loc q (loc_Inexact c))).
  { intros c HLt HEq HGt. split; [destruct c; simpl; lia|].
    destruct c; simpl.
    - specialize (HEq eq_refl). apply (f_equal IZR) in HEq.
      rewrite mult_IZR in HEq. nra.
    - destruct (HLt eq_refl) as [H0 H1]. apply (IZR_lt 0) in H0.
      apply IZR_lt in H1. rewrite mult_IZR in H1. split; nra.
    - specialize (HGt eq_refl). apply IZR_lt in HGt.
      rewrite mult_IZR in HGt. split; nra. }
  assert (Hex : r = 0%Z → inbetween y (shr_record_of_loc q loc_Exact)).
  { intros ->. split; simpl; [lia|]. destruct (Rmult_integral _ _ Hy); lra. }
  unfold new_location, new_location_even, new_location_odd.
  destruct (Z.even n) eqn:Hev; destruct (Z.eqb_spec r 0) as [Hr0|Hr0]; auto.
  - destruct (Z.compare_spec (2 * r) n) as [Hc|Hc|Hc];
      apply Hloc; try done; intros _; lia.
  - assert (2 * r ≠ n)%Z as Hodd.
    { intros <-. rewrite Z.even_mul in Hev. done. }
    destruct (Z.compare_spec (2 * r + 1) n) as [Hc|Hc|Hc];
      apply Hloc; try done; intros _; lia.
Qed.

Lemma F2R_gt_0 m e : 0 < F2R m e.
Proof.
  unfold F2R. pose proof (bpow_gt_0 e).
  assert (0 < IZR (Z.pos m)) by (apply (IZR_lt 0); lia). nra.
Qed.

Lemma SFdiv_core_spec mc ec mz ez :
  ∃ q e' l,
    SFdiv_core_binary prec emax (Z.pos mc) ec (Z.pos mz) ez = (q, e', l) ∧
    (0 <= q)%Z ∧
    inbetween (F2R mc ec / F2R mz ez * bpow (- e')) (shr_record_of_loc q l) ∧
    ((e' <= -1074)%Z ∨ bpow (e' + 52) <= F2R mc ec / F2R mz ez).
Proof.
  unfold SFdiv_core_binary. rewrite fexp_eq.
  change (Zdigits2 (Z.pos mc)) with (Z.pos (digits2_pos mc)).
  change (Zdigits2 (Z.pos mz)) with (Z.pos (digits2_pos mz)).
  set (d1 := Z.pos (digits2_pos mc)). set (d2 := Z.pos (digits2_pos mz)).
  set (e' := Z.min (Z.max (d1 + ec - (d2 + ez) - 53) (-1074)) (ec - ez)).
  set (s := (ec - ez - e')%Z).
  assert (0 <= s)%Z as Hs by (unfold s, e'; lia).
  set (m' := match s with
             | 0%Z => Z.pos mc
             | Z.pos _ => Z.shiftl (Z.pos mc) s
             | Z.neg _ => 0%Z
             end).
  assert (m' = Z.pos mc * 2 ^ s)%Z as Hm'.
  { unfold m'. destruct s as [|p|p] eqn:Hsp; [lia| |lia].
    by rewrite Z.shiftl_mul_pow2. }
  pose proof (Z_div_mod m' (Z.pos mz) ltac:(lia)) as Hdiv.
  destruct (Z.div_eucl m' (Z.pos mz)) as [q r]. destruct Hdiv as [Hqr Hr].
  exists q, e', (new_location (Z.pos mz) r). split; [done|].
  pose proof (F2R_gt_0 mc ec) as Hc. pose proof (F2R_gt_0 mz ez) as Hz.
  assert (0 < IZR (Z.pos mz)) as Hmz by (apply (IZR_lt 0); lia).
  assert (0 < IZR (Z.pos mc)) as Hmc by (apply (IZR_lt 0); lia).
  assert (0 <= q)%Z as Hq by nia.
  split; [done|].
  assert (F2R mc ec / F2R mz ez * bpow (- e') = IZR m' / IZR (Z.pos mz)) as Hy.
  { rewrite Hm', mult_IZR, <- bpow_IZR by done. unfold F2R.
    replace ec with (s + ez + e')%Z at 1 by (unfold s; lia).
    rewrite !bpow_add, bpow_opp.
    pose proof (bpow_gt_0 ez). pose proof (bpow_gt_0 e'). field. lra. }
  split.
  - rewrite Hy. apply new_location_inbetween; [lia | done | done |].
    rewrite Hqr, plus_IZR, mult_IZR. field. lra.
  - destruct (Z_le_gt_dec e' (-1074)) as [|Hgt]; [by left | right].
    assert (e' + 53 <= d1 + ec - (d2 + ez))%Z as He by (unfold e' in *; lia).
    pose proof (digits_bpow mc) as [Hd1 _]. pose proof (digits_bpow mz) as [_ Hd2].
    fold d1 in Hd1. fold d2 in Hd2.
    assert (bpow (d1 - 1 + ec) <= F2R mc ec) as Hlo.
    { rewrite bpow_add. unfold F2R. pose proof (bpow_gt_0 ec). nra. }
    assert (F2R mz ez < bpow (d2 + ez)) as Hhi.
    { rewrite bpow_add. unfold F2R. pose proof (bpow_gt_0 ez). nra. }
    assert (bpow (e' + 52) * bpow (d2 + ez) <= bpow (d1 - 1 + ec)) as Hbe.
    { rewrite <- bpow_add. apply bpow_le. lia. }
    pose proof (bpow_gt_0 (e' + 52)). pose proof (bpow_gt_0 (d2 + ez)).
    apply Rmult_le_reg_r with (r := F2R mz ez); [done|].
    replace (F2R mc ec / F2R mz ez * F2R mz ez) with (F2R mc ec) by (field; lra).
    nra.
Qed.

Lemma SFdiv_pos mc ec mz ez :
  ∃ M E, rounds_to (F2R mc ec / F2R mz ez) M E ∧
         SFdiv prec emax (S754_finite false mc ec) (S754_finite false mz ez)
           = pack false M E.
Proof.
  destruct (SFdiv_core_spec mc ec mz ez) as (q & e' & l & Hcore & Hq & Hin & Hpre).
  unfold SFdiv. rewrite Hcore. simpl xorb.
  apply binary_round_aux_spec; try done.
  pose proof (F2R_gt_0 mc ec). pose proof (F2R_gt_0 mz ez).
  by apply Rdiv_lt_0_compat.
Qed.

Lemma canonical_digits m e :
  valid_binary (S754_finite false m e) = true →
  (-1074 <= e)%Z ∧ (Z.pos (digits2_pos m) <= 53)%Z ∧
  ((-1074 < e)%Z → Z.pos (digits2_pos m) = 53%Z).
Proof.
  unfold SpecFloat.valid_binary, bounded, canonical_mantissa. rewrite fexp_eq.
  intros [Hc _]%andb_prop. apply Z.eqb_eq in Hc. lia.
Qed.

Lemma F2R_lt m1 e1 m2 e2 :
  valid_binary (S754_finite false m1 e1) = true →
  valid_binary (S754_finite false m2 e2) = true →
  SFltb (S754_finite false m1 e1) (S754_finite false m2 e2) = true →
  F2R m1 e1 < F2R m2 e2.
Proof.
  intros (H1 & Hd1 & _)%canonical_digits (H2 & _ & Hd2)%canonical_digits.
  unfold SFltb, SFcompare, F2R.
  pose proof (digits_bpow m1) as [_ Hm1]. pose proof (digits_bpow m2) as [Hm2 _].
  destruct (Z.compare_spec e1 e2) as [->|He|He]; [| |done].
  - change (Pos.compare_cont Eq m1 m2) with (Pos.compare m1 m2).
    destruct (Pos.compare_spec m1 m2) as [|Hlt|]; [done| |done]. intros _.
    pose proof (bpow_gt_0 e2). assert (IZR (Z.pos m1) < IZR (Z.pos m2)) by (apply IZR_lt; lia).
    nra.
  - intros _. rewrite Hd2 in Hm2 by lia.
    assert (bpow (Z.pos (digits2_pos m1)) <= bpow 53) as Hb1 by (apply bpow_le; lia).
    assert (bpow (53 + e1) <= bpow (53 - 1 + e2)) as Hb2 by (apply bpow_le; lia).
    rewrite !bpow_add in Hb2.
    pose proof (bpow_gt_0 e1). pose proof (bpow_gt_0 e2). pose proof (bpow_gt_0 53).
    pose proof (bpow_gt_0 (53 - 1)). nra.
Qed.

Lemma pack_nonneg x M E :
  0 <= x → rounds_to x M E → SFleb (S754_zero false) (pack false M E) = true.
Proof.
  intros Hx Hr. pose proof (rounds_to_range x M E Hx Hr) as HM.
  change (S754_zero false) with (pack false 0 E).
  apply pack_leb; [|done|right; split; [done|lia]].
  split; [lia | done].
Qed.

Lemma positive_float z :
  (0 <? z)%float = true →
  (∃ m e, Prim2SF z = S754_finite false m e ∧
          valid_binary (S754_finite false m e) = true) ∨
  Prim2SF z = S754_infinity false.
Proof.
  rewrite ltb_spec. change (Prim2SF 0) with (S754_zero false).
  pose proof (Prim2SF_valid z) as Hv.
  destruct (Prim2SF z) as [s|[]| |[] m e]; try done.
  - by right.
  - left. by exists m, e.
Qed.

Lemma positive_finite_float c :
  (0 <? c)%float = true → (c <? infinity)%float = true →
  ∃ m e, Prim2SF c = S754_finite false m e ∧
         valid_binary (S754_finite false m e) = true.
Proof.
  intros [H|H]%positive_float; [done|].
  rewrite ltb_spec, H. done.
Qed.

Theorem float_div_antitone c z1 z2 :
  (0 <? c)%float = true → (c <? infinity)%float = true →
  (0 <? z1)%float = true → (z1 <? z2)%float = true →
  (c / z2 <=? c / z1)%float = true ∧ (0 <=? c / z2)%float = true ∧
  (0 <=? c / z1)%float = true.
Proof.
  intros Hc0 Hc1 Hz1 Hz12.
  destruct (positive_finite_float c Hc0 Hc1) as (mc & ec & HC & HCv).
  rewrite !leb_spec, !div_spec, HC. change (Prim2SF 0) with (S754_zero false).
  apply positive_float in Hz1. rewrite ltb_spec in Hz12.
  unfold SF64div.
  destruct Hz1 as [(m1 & e1 & HZ1 & Hv1)|HZ1]; rewrite HZ1 in *;
    [|by destruct (Prim2SF z2) as [|[]| |]].
  destruct (SFdiv_pos mc ec m1 e1) as (M1 & E1 & R1 & ->).
  pose proof (F2R_gt_0 mc ec) as Hcp. pose proof (F2R_gt_0 m1 e1) as Hp1.
  assert (0 < F2R mc ec / F2R m1 e1) as Hx1 by (by apply Rdiv_lt_0_compat).
  pose proof (Prim2SF_valid z2) as Hv2.
  destruct (Prim2SF z2) as [s|[]| |[] m2 e2] eqn:HZ2; try done.
  - (* z2 infinite *)
    simpl SFdiv.
    assert (SFleb (S754_zero false) (pack false M1 E1) = true) as H
      by (apply (pack_nonneg _ _ _ (Rlt_le _ _ Hx1) R1)).
    done.
  - (* z2 finite *)
    destruct (SFdiv_pos mc ec m2 e2) as (M2 & E2 & R2 & ->).
    pose proof (F2R_gt_0 m2 e2) as Hp2.
    pose proof (F2R_lt _ _ _ _ Hv1 Hv2 Hz12) as Hlt.
    assert (0 < F2R mc ec / F2R m2 e2) as Hx2 by (by apply Rdiv_lt_0_compat).
    assert (F2R mc ec / F2R m2 e2 <= F2R mc ec / F2R m1 e1) as Hle.
    { unfold Rdiv. apply Rmult_le_compat_l; [lra|].
      apply Rinv_le_contravar; lra. }
    split; [by apply (rounds_to_mono _ _ _ _ _ _ Hx2 Hle)|].
    split; [apply (pack_nonneg _ _ _ (Rlt_le _ _ Hx2) R2)
           | apply (pack_nonneg _ _ _ (Rlt_le _ _ Hx1) R1)].
Qed.














End Rounding.


Lemma project_line_scale s off pos player_y p p' c n z :
  CAMERA_DEPTH s = PyFloat c →
  project_line s off pos player_y p = (Ok tt, p') →
  camera p' !! "z" = Some n → as_float n = Ok z →
  screen p' !! "s" = Some (PyFloat (c / z)).
Proof.
  intros Hc (v & Hv & ->)%project_line_inv Hn Hz.
  simpl in *. rewrite lookup_insert_eq in Hn. injection Hn as <-.
  rewrite !lookup_insert_ne, lookup_insert_eq by done. f_equal.
  unfold projected in Hv. repeat next_op. injection Hv as <-. simpl in *.
  match goal with E : div (CAMERA_DEPTH s) _ = Ok _ |- _ => rename E into Hd end.
  rewrite Hc in Hd. unfold div in Hd. simpl in Hd. rewrite Hz in Hd. simpl in Hd.
  destruct (eq_zero _); [done|]. by injection Hd as <-.
Qed.

(** X18.  A farther line never gets the larger scale.  With a camera depth
    constant that is a positive finite float, take two lines that
    [project_line] has projected, whose depths (the camera [z], as floats)
    are positive and strictly ordered: both scales are floats, the scale
    of the farther line is at most the scale of the nearer one, and it is
    not negative.  Rounding can make the two scales equal; it never
    inverts them. *)
Theorem farther_line_smaller_scale s off1 off2 pos1 pos2 y1 y2 p q p' q' c n1 n2 z1 z2 :
  CAMERA_DEPTH s = PyFloat c →
  (0 <? c)%float = true → (c <? infinity)%float = true →
  project_line s off1 pos1 y1 p = (Ok tt, p') →
  project_line s off2 pos2 y2 q = (Ok tt, q') →
  camera p' !! "z" = Some n1 → camera q' !! "z" = Some n2 →
  as_float n1 = Ok z1 → as_float n2 = Ok z2 →
  (0 <? z1)%float = true → (z1 <? z2)%float = true →
  ∃ s1 s2 : float,
    screen p' !! "s" = Some (PyFloat s1) ∧ screen q' !! "s" = Some (PyFloat s2) ∧
    le (PyFloat s2) (PyFloat s1) = true ∧ le (PyFloat 0) (PyFloat s2) = true.
Proof.
  intros Hc Hc0 Hc1 Hp Hq Hn1 Hn2 Hz1 Hz2 H0 H12.
  exists (c / z1)%float, (c / z2)%float.
  destruct (float_div_antitone c z1 z2 Hc0 Hc1 H0 H12) as (Hle & Hnn & _).
  split; [by eapply project_line_scale|].
  split; [by eapply project_line_scale|].
  split; [exact Hle | exact Hnn].
Qed.

Lemma farther_line_smaller_scale_witness :
  ∃ s1 s2 : float,
    screen (project_line Demo.conf (PyInt 0) (PyInt 0) (PyInt 0)
              (bottom (Demo.flat 1))).2 !! "s" = Some (PyFloat s1) ∧
    screen (project_line Demo.conf (PyInt 0) (PyInt 0) (PyInt 0)
              (top (Demo.flat 1))).2 !! "s" = Some (PyFloat s2) ∧
    le (PyFloat s2) (PyFloat s1) = true ∧ le (PyFloat 0) (PyFloat s2) = true.
Proof.
  apply (farther_line_smaller_scale Demo.conf (PyInt 0) (PyInt 0) (PyInt 0)
           (PyInt 0) (PyInt 0) (PyInt 0) (bottom (Demo.flat 1)) (top (Demo.flat 1))
           _ _ 0x1.ae147ae147ae1p-1%float (PyInt 200) (PyInt 400)
           200%float 400%float); reflexivity.
Defined.

(** *** The scale against the depth *)




(** *** Adjacent segments with no lean *)










